(** * Lattera: chat synchronisation client and chat routes

    A shallow embedding of the message-list, chat-list, pagination and
    typing-indicator logic of [client/src/pages/MainChat.tsx] and
    [client/src/components/MessageWindow.tsx], and of the chat routes of
    [server/src/routes/chats.ts].

    React state is modelled by explicit state passing: every
    [setX(prev => ...)] updater is a function on the previous value, and
    an [async] handler is split at each [await] into the part that runs
    before it and the part that runs when the promise settles. *)

From Stdlib Require Import ZArith Lia.
From stdpp Require Import base option list strings pretty gmap.

Local Open Scope string_scope.
Local Open Scope list_scope.

(** ** Data model (client/src/types/api, as used by the two components) *)

(** The outcome of an awaited API call: resolved with a value, or rejected. *)
Inductive Settled (A : Type) : Type :=
  | Resolved (a : A)
  | Rejected.
Arguments Resolved {A} a.
Arguments Rejected {A}.

Inductive MediaKind : Set := image | video | audio.

Record Media : Set := { media_type : MediaKind; media_url : string }.

(** The [sender] sub-object of a message: [{ id, firstName, lastName }]. *)
Record SenderInfo : Set :=
  { sender_id : string; sender_firstName : string; sender_lastName : string }.

(** The logged-in user of [useApp()]. *)
Record User : Set :=
  { user_id : string; user_firstName : string; user_lastName : string }.

(** [MessageResponse]: a message as the server and the socket deliver it;
    [sender] may be missing. *)
Module MessageResponse.
Record t : Set := mk
  { id : string;
    chatId : string;
    senderId : string;
    sender : option SenderInfo;
    content : option string;
    media : option Media;
    editedAt : option string;
    deletedFor : list string;
    timestamp : string;
    status : string;
    deliveredAt : option string }.
End MessageResponse.

(** [MessageWithFlags]: [MessageWithSenderResponse] plus the three
    transient client flags, each optional. *)
Module Message.
Record t : Set := mk
  { id : string;
    chatId : string;
    senderId : string;
    sender : SenderInfo;
    content : option string;
    media : option Media;
    editedAt : option string;
    deletedFor : list string;
    timestamp : string;
    status : string;
    deliveredAt : option string;
    _isNew : option bool;
    _isDeleting : option bool;
    _isEditing : option bool }.

(** [{ ...m, content, editedAt }] *)
Definition with_edit (m : t) (c : option string) (e : option string) : t :=
  mk (id m) (chatId m) (senderId m) (sender m) c (media m) e
     (deletedFor m) (timestamp m) (status m) (deliveredAt m)
     (_isNew m) (_isDeleting m) (_isEditing m).

(** [{ ...m, _isNew: b }] *)
Definition with_isNew (m : t) (b : bool) : t :=
  mk (id m) (chatId m) (senderId m) (sender m) (content m) (media m)
     (editedAt m) (deletedFor m) (timestamp m) (status m) (deliveredAt m)
     (Some b) (_isDeleting m) (_isEditing m).

(** [{ ...m, _isDeleting: b }] *)
Definition with_isDeleting (m : t) (b : bool) : t :=
  mk (id m) (chatId m) (senderId m) (sender m) (content m) (media m)
     (editedAt m) (deletedFor m) (timestamp m) (status m) (deliveredAt m)
     (_isNew m) (Some b) (_isEditing m).

(** [{ ...m, _isEditing: b }] *)
Definition with_isEditing (m : t) (b : bool) : t :=
  mk (id m) (chatId m) (senderId m) (sender m) (content m) (media m)
     (editedAt m) (deletedFor m) (timestamp m) (status m) (deliveredAt m)
     (_isNew m) (_isDeleting m) (Some b).

(** The identifiers of a message list, in order. *)
Definition ids (l : list t) : list string := id <$> l.

(** [prev.some((m) => m.id === i)] *)
Definition some_id (i : string) (l : list t) : bool :=
  existsb (λ m, bool_decide (id m = i)) l.

(** [prev.map((m) => m.id === i ? f(m) : m)] *)
Definition map_id (i : string) (f : t → t) (l : list t) : list t :=
  (λ m, if bool_decide (id m = i) then f m else m) <$> l.

(** [prev.filter((m) => m.id !== i)] *)
Definition remove_id (i : string) (l : list t) : list t :=
  filter (λ m, id m ≠ i) l.

(** [m'] is [m] except possibly for its content and its edit timestamp. *)
Definition same_but_edit (m m' : t) : Prop :=
  with_edit m (content m') (editedAt m') = m'.
End Message.

(** ** Inbound socket events on the message list (MessageWindow.tsx) *)

Module MessageWindow.

Record MessageDeleted : Set := { del_chatId : string; del_messageId : string }.

Record MessageEdited : Set :=
  { ed_chatId : string;
    ed_messageId : string;
    ed_content : option string;
    ed_editedAt : option string }.

(** [{ ...message, sender: message.sender || { id: message.senderId,
    firstName: '', lastName: '' } }] *)
Definition messageWithSender (message : MessageResponse.t) : Message.t :=
  Message.mk
    (MessageResponse.id message) (MessageResponse.chatId message)
    (MessageResponse.senderId message)
    (default
       {| sender_id := MessageResponse.senderId message;
          sender_firstName := ""; sender_lastName := "" |}
       (MessageResponse.sender message))
    (MessageResponse.content message) (MessageResponse.media message)
    (MessageResponse.editedAt message) (MessageResponse.deletedFor message)
    (MessageResponse.timestamp message) (MessageResponse.status message)
    (MessageResponse.deliveredAt message)
    None None None.

(** The effect body starts with [if (!chatId) return;]: with an empty chat id
    no handler is subscribed at all. *)
Definition subscribed (chatId : string) : bool := negb (bool_decide (chatId = "")).

(** [socketService.onNewMessage] handler, as a function on the message list. *)
Definition onNewMessage (chatId : string) (message : MessageResponse.t)
    (prev : list Message.t) : list Message.t :=
  if negb (subscribed chatId) then prev
  else if negb (bool_decide (MessageResponse.chatId message = chatId)) then prev
  else if Message.some_id (MessageResponse.id message) prev then prev
  else prev ++ [messageWithSender message].

(** [socketService.onMessageDeleted] handler. *)
Definition onMessageDeleted (chatId : string) (data : MessageDeleted)
    (prev : list Message.t) : list Message.t :=
  if negb (subscribed chatId) then prev
  else if bool_decide (del_chatId data = chatId)
  then Message.remove_id (del_messageId data) prev
  else prev.

(** [socketService.onMessageEdited] handler. *)
Definition onMessageEdited (chatId : string) (data : MessageEdited)
    (prev : list Message.t) : list Message.t :=
  if negb (subscribed chatId) then prev
  else if bool_decide (ed_chatId data = chatId)
  then Message.map_id (ed_messageId data)
         (λ m, Message.with_edit m (ed_content data) (ed_editedAt data)) prev
  else prev.

End MessageWindow.

(** ** Optimistic mutations of the message list (MainChat.tsx) *)

Module MainChat.

(** [selectedChatId && ...] and [!selectedChatId]: [null] and the empty
    string are falsy. *)
Definition truthy (s : option string) : bool :=
  match s with
  | Some c => negb (bool_decide (c = ""))
  | None => false
  end.

(** *** handleEditMessage *)

(** The optimistic update, run before the API call:
    [{ ...m, content, editedAt: new Date().toISOString(), _isEditing: false }]
    on the message with the edited id. *)
Definition edit_optimistic (messageId content nowISO : string)
    (prev : list Message.t) : list Message.t :=
  Message.map_id messageId
    (λ m, Message.with_isEditing
            (Message.with_edit m (Some content) (Some nowISO)) false)
    prev.

(** The [catch] branch: [setMessages((prev) => prev)]. *)
Definition edit_catch (prev : list Message.t) : list Message.t := prev.

(** The whole handler, with the awaited [api.messages.edit] call settled as
    [res] and no other update of the list in between. *)
Definition handleEditMessage (user : option User)
    (messageId content nowISO : string) (res : Settled unit)
    (prev : list Message.t) : list Message.t :=
  match user with
  | None => prev
  | Some _ =>
      let optimistic := edit_optimistic messageId content nowISO prev in
      match res with
      | Resolved _ => optimistic
      | Rejected => edit_catch optimistic
      end
  end.

(** *** handleDeleteMessage *)

Definition delete_optimistic (messageId : string) (prev : list Message.t) :=
  Message.map_id messageId (λ m, Message.with_isDeleting m true) prev.

Definition delete_then (messageId : string) (prev : list Message.t) :=
  Message.remove_id messageId prev.

Definition delete_catch (messageId : string) (prev : list Message.t) :=
  Message.map_id messageId (λ m, Message.with_isDeleting m false) prev.

Definition handleDeleteMessage (selectedChatId : option string)
    (user : option User) (messageId : string) (res : Settled unit)
    (prev : list Message.t) : list Message.t :=
  if negb (truthy selectedChatId) then prev
  else match user with
       | None => prev
       | Some _ =>
           let flagged := delete_optimistic messageId prev in
           match res with
           | Resolved _ => delete_then messageId flagged
           | Rejected => delete_catch messageId flagged
           end
       end.

(** *** handleSendMessage *)

(** [`temp-${Date.now()}`]: [now] is the millisecond clock. *)
Definition tempId (now : N) : string := "temp-" +:+ pretty now.

Definition senderOf (user : User) : SenderInfo :=
  {| sender_id := user_id user;
     sender_firstName := user_firstName user;
     sender_lastName := user_lastName user |}.

(** The locally fabricated record. *)
Definition tempMessage (selectedChatId : string) (user : User)
    (content : string) (now : N) (nowISO : string) : Message.t :=
  Message.mk (tempId now) selectedChatId (user_id user) (senderOf user)
    (Some content) None None [] nowISO "sending" None
    None None None.

(** [setMessages((prev) => [...prev, tempMessage])] *)
Definition send_optimistic (tempMsg : Message.t) (prev : list Message.t) :=
  prev ++ [tempMsg].

(** The 500 ms timer: [m.id === tempId ? { ...m, _isNew: false } : m]. *)
Definition send_clear_isNew (tid : string) (prev : list Message.t) :=
  Message.map_id tid (λ m, Message.with_isNew m false) prev.

(** [{ ...response.data, sender: {...user}, status: 'sent',
       deliveredAt: new Date().toISOString() }] *)
Definition sentMessage (user : User) (data : MessageResponse.t)
    (nowISO : string) : Message.t :=
  Message.mk
    (MessageResponse.id data) (MessageResponse.chatId data)
    (MessageResponse.senderId data) (senderOf user)
    (MessageResponse.content data) (MessageResponse.media data)
    (MessageResponse.editedAt data) (MessageResponse.deletedFor data)
    (MessageResponse.timestamp data) "sent" (Some nowISO)
    None None None.

(** Success: the record carrying the temporary id is mapped to the server's. *)
Definition send_then (tid : string) (user : User) (data : MessageResponse.t)
    (nowISO : string) (prev : list Message.t) : list Message.t :=
  Message.map_id tid (λ _, sentMessage user data nowISO) prev.

(** Failure of the upload or of the send:
    [prev.filter((m) => m.id !== tempId)]. *)
Definition send_catch (tid : string) (prev : list Message.t) :=
  Message.remove_id tid prev.

(** The whole handler on the message list. [upload] is [None] when no file
    is attached and otherwise the settled [api.media.upload] call; [res] is
    the settled [api.messages.send] call, awaited only when the upload did
    not fail. [laterISO] is the clock read when the response arrives. *)
Definition handleSendMessage (selectedChatId : option string)
    (user : option User) (content : string) (now : N) (nowISO : string)
    (upload : option (Settled Media)) (res : Settled MessageResponse.t)
    (laterISO : string) (prev : list Message.t) : list Message.t :=
  if negb (truthy selectedChatId) then prev
  else match selectedChatId, user with
       | Some chat, Some u =>
           let tid := tempId now in
           let appended :=
             send_optimistic (tempMessage chat u content now nowISO) prev in
           match upload with
           | Some Rejected => send_catch tid appended
           | _ =>
               match res with
               | Resolved data => send_then tid u data laterISO appended
               | Rejected => send_catch tid appended
               end
           end
       | _, _ => prev
       end.

(** *** Message history: loadMessages, handleChatSelect, load more *)

(** A [loadMessages(chatId, offset)] call whose [api.messages.list] promise
    has not settled yet. *)
Record Fetch : Set := { fetch_chatId : string; fetch_offset : nat }.

(** The React state cells the history logic reads and writes, the
    [shouldAutoScroll] cell of the message window, and the pending calls. *)
Record State : Set := mkState
  { selectedChatId : option string;
    messages : list Message.t;
    messagesLoading : bool;
    hasMoreMessages : bool;
    messagesOffset : nat;
    shouldAutoScroll : bool;
    inflight : list Fetch }.

Definition initial : State := mkState None [] false false 0 true [].

(** [limit: 50] in [loadMessages], and [response.messages.length === 50]. *)
Definition pageSize : nat := 50.

(** [loadMessages] up to its [await]: [setMessagesLoading(true)] and the
    request goes out. *)
Definition loadMessages_start (chatId : string) (offset : nat) (s : State)
    : State :=
  mkState (selectedChatId s) (messages s) true (hasMoreMessages s)
    (messagesOffset s) (shouldAutoScroll s)
    (inflight s ++ [{| fetch_chatId := chatId; fetch_offset := offset |}]).

(** The [try] block after the [await], on a page [response.messages]. The
    in-place [reverse()] leaves the length as it was. *)
Definition applyPage (offset : nat) (page : list Message.t) (s : State)
    : State :=
  mkState (selectedChatId s)
    (if bool_decide (offset = 0) then reverse page
     else reverse page ++ messages s)
    (messagesLoading s)
    (bool_decide (length page = pageSize))
    (offset + length page)
    (shouldAutoScroll s) (inflight s).

(** [finally { setMessagesLoading(false) }] *)
Definition stopLoading (s : State) : State :=
  mkState (selectedChatId s) (messages s) false (hasMoreMessages s)
    (messagesOffset s) (shouldAutoScroll s) (inflight s).

(** [loadMessages] from its [await] on, for the call [f]. *)
Definition loadMessages_settle (f : Fetch) (res : Settled (list Message.t))
    (s : State) : State :=
  stopLoading
    match res with
    | Resolved page => applyPage (fetch_offset f) page s
    | Rejected => s
    end.

(** [handleChatSelect] on the history cells, up to the first [await] inside
    its async block. The typing set it empties is followed in
    [Typing.selectChat], the mark-as-read after the load in
    [ChatList.markedAsRead]. *)
Definition handleChatSelect (user : option User) (chatId : string)
    (s : State) : State :=
  match user with
  | None => s
  | Some _ =>
      loadMessages_start chatId 0
        (mkState (Some chatId) [] (messagesLoading s) (hasMoreMessages s)
           0 (shouldAutoScroll s) (inflight s))
  end.

(** [handleLoadMoreMessages] *)
Definition handleLoadMoreMessages (s : State) : State :=
  match selectedChatId s with
  | Some chat =>
      if truthy (selectedChatId s) && hasMoreMessages s
         && negb (messagesLoading s)
      then loadMessages_start chat (messagesOffset s) s
      else s
  | None => s
  end.

(** The scroll container as [handleScroll] reads it. *)
Record ScrollBox : Set :=
  { scrollTop : Z; scrollHeight : Z; clientHeight : Z }.

Definition setShouldAutoScroll (b : bool) (s : State) : State :=
  mkState (selectedChatId s) (messages s) (messagesLoading s)
    (hasMoreMessages s) (messagesOffset s) b (inflight s).

(** [MessageWindow.handleScroll], with the props MainChat passes:
    [loading = messagesLoading], [hasMore = hasMoreMessages],
    [onLoadMore = handleLoadMoreMessages]. [box] is
    [scrollContainerRef.current]. *)
Definition handleScroll (box : option ScrollBox) (s : State) : State :=
  match box with
  | None => s
  | Some b =>
      let isNearBottom :=
        (scrollHeight b - scrollTop b - clientHeight b <? 100)%Z in
      let s1 := setShouldAutoScroll isNearBottom s in
      if (scrollTop b <? 100)%Z && hasMoreMessages s
         && negb (messagesLoading s)
      then handleLoadMoreMessages s1
      else s1
  end.

(** Any other [setMessages(updater)]: socket events, optimistic mutations. *)
Definition setMessages (upd : list Message.t → list Message.t) (s : State)
    : State :=
  mkState (selectedChatId s) (upd (messages s)) (messagesLoading s)
    (hasMoreMessages s) (messagesOffset s) (shouldAutoScroll s) (inflight s).

(** What can happen to the history state. [FetchSettled i res] settles the
    [i]-th pending call, in any order the network chooses. *)
Inductive Event : Type :=
  | ChatSelect (chatId : string)
  | LoadMore
  | Scroll (box : option ScrollBox)
  | FetchSettled (i : nat) (res : Settled (list Message.t))
  | SetMessages (upd : list Message.t → list Message.t).

Definition dropFetch (i : nat) (s : State) : State :=
  mkState (selectedChatId s) (messages s) (messagesLoading s)
    (hasMoreMessages s) (messagesOffset s) (shouldAutoScroll s)
    (delete i (inflight s)).

Definition step (user : option User) (e : Event) (s : State) : State :=
  match e with
  | ChatSelect chatId => handleChatSelect user chatId s
  | LoadMore => handleLoadMoreMessages s
  | Scroll box => handleScroll box s
  | FetchSettled i res =>
      match inflight s !! i with
      | Some f => loadMessages_settle f res (dropFetch i s)
      | None => s
      end
  | SetMessages upd => setMessages upd s
  end.

Definition run (user : option User) (es : list Event) (s : State) : State :=
  foldl (λ st e, step user e st) s es.



(** Modelled from the spec: the message-list operation of the server (its
    route is not among the sources). The persistence layer returns paginated
    records, newest first: [limit] records after skipping [offset] of the
    chat's stored messages [stored], given newest first. *)
Definition listMessages (stored : list Message.t) (limit offset : nat)
    : list Message.t :=
  take limit (drop offset stored).

(** The [i]-th pending call is answered by the server from [store], the
    stored messages of each chat, newest first. *)
Definition respond (store : string → list Message.t) (i : nat) (s : State)
    : Event :=
  FetchSettled i
    match inflight s !! i with
    | Some f =>
        Resolved (listMessages (store (fetch_chatId f)) pageSize (fetch_offset f))
    | None => Rejected
    end.

(** *** The handlers between two renders

    [handleLoadMoreMessages] is a [useCallback] over [selectedChatId],
    [hasMoreMessages], [messagesLoading] and [messagesOffset], and the
    message window makes its [handleScroll] anew in every render from the
    props [loading], [hasMore] and [onLoadMore]. So the two handlers read
    the cells as the last render saw them, while every setter writes the
    cell itself, which the handlers see after the next render only.
    [handleLoadMoreMessages], [handleScroll] and [step] above are the case
    in which a render separates any two events. *)
Record Rendered : Set := mkRendered
  { seen_selectedChatId : option string;
    seen_hasMoreMessages : bool;
    seen_messagesLoading : bool;
    seen_messagesOffset : nat }.

(** What a render takes from the cells. *)
Definition render (s : State) : Rendered :=
  mkRendered (selectedChatId s) (hasMoreMessages s) (messagesLoading s)
    (messagesOffset s).

(** [handleLoadMoreMessages] as made by the render that saw [r]. *)
Definition handleLoadMoreMessages_seen (r : Rendered) (s : State) : State :=
  match seen_selectedChatId r with
  | Some chat =>
      if truthy (seen_selectedChatId r) && seen_hasMoreMessages r
         && negb (seen_messagesLoading r)
      then loadMessages_start chat (seen_messagesOffset r) s
      else s
  | None => s
  end.

(** [MessageWindow.handleScroll] as made by the render that saw [r]. *)
Definition handleScroll_seen (r : Rendered) (box : option ScrollBox)
    (s : State) : State :=
  match box with
  | None => s
  | Some b =>
      let isNearBottom :=
        (scrollHeight b - scrollTop b - clientHeight b <? 100)%Z in
      let s1 := setShouldAutoScroll isNearBottom s in
      if (scrollTop b <? 100)%Z && seen_hasMoreMessages r
         && negb (seen_messagesLoading r)
      then handleLoadMoreMessages_seen r s1
      else s1
  end.

(** The cells together with what the last render saw of them. *)
Record Page : Set := mkPage { cells : State; seen : Rendered }.

(** A page that has just been rendered. *)
Definition rendered (s : State) : Page := mkPage s (render s).

(** What can happen to a page: a render, or one of the events above, run
    by the handlers of the last render. *)
Inductive PageEvent : Type :=
  | Render
  | Handler (e : Event).

Definition stepPage (user : option User) (pe : PageEvent) (p : Page) : Page :=
  match pe with
  | Render => rendered (cells p)
  | Handler LoadMore =>
      mkPage (handleLoadMoreMessages_seen (seen p) (cells p)) (seen p)
  | Handler (Scroll box) =>
      mkPage (handleScroll_seen (seen p) box (cells p)) (seen p)
  | Handler e => mkPage (step user e (cells p)) (seen p)
  end.



End MainChat.

(** ** The chat list and its unread counters (MainChat.tsx) *)

(** [ChatResponseData]. The counters are a JS object from user id to
    number, and the object itself may be missing ([chat.unreadCount?.[..]]). *)
Module Chat.
Record LastMessage : Set :=
  { lm_content : option string; lm_senderId : string; lm_timestamp : string }.

Record Participant : Set :=
  { p_id : string; p_firstName : string; p_lastName : string }.

Record t : Type := mk
  { id : string;
    participants : list Participant;
    type : string;
    lastMessage : option LastMessage;
    unreadCount : option (gmap string Z);
    createdAt : string;
    updatedAt : string }.

(** [chat.unreadCount?.[userId] || 0] *)
Definition unread (chat : t) (userId : string) : Z :=
  default 0%Z (unreadCount chat ≫= (.!! userId)).

(** [chats.find((c) => c.id === chatId)] *)
Definition find (chatId : string) (chats : list t) : option t :=
  List.find (λ c, bool_decide (id c = chatId)) chats.

(** Every stored counter of every chat is at least 0. *)
Definition counters_nonneg (chats : list t) : Prop :=
  ∀ c m u n, c ∈ chats → unreadCount c = Some m → m !! u = Some n → (0 ≤ n)%Z.
End Chat.

Module ChatList.

(** The body of the first [setChats] updater of the [onNewMessage]
    subscription, for one chat of the list. *)
Definition bump (user : User) (selectedChatId : option string)
    (message : MessageResponse.t) (chat : Chat.t) : Chat.t :=
  if negb (bool_decide (Chat.id chat = MessageResponse.chatId message))
  then chat
  else
    let shouldIncrementUnread :=
      negb (bool_decide (MessageResponse.senderId message = user_id user))
      && negb (bool_decide (Some (MessageResponse.chatId message)
                            = selectedChatId)) in
    Chat.mk (Chat.id chat) (Chat.participants chat) (Chat.type chat)
      (Some {| Chat.lm_content := MessageResponse.content message;
               Chat.lm_senderId := MessageResponse.senderId message;
               Chat.lm_timestamp := MessageResponse.timestamp message |})
      (if shouldIncrementUnread
       then Some (<[user_id user := (Chat.unread chat (user_id user) + 1)%Z]>
                    (default ∅ (Chat.unreadCount chat)))
       else Chat.unreadCount chat)
      (Chat.createdAt chat) (Chat.updatedAt chat).

(** The [api.chats.markAsRead(selectedChatId)] calls the same updater fires,
    one per chat of the list that matches. *)
Definition markAsRead_calls (user : User) (selectedChatId : option string)
    (message : MessageResponse.t) (prev : list Chat.t) : list string :=
  omap (λ chat,
          if bool_decide (Chat.id chat = MessageResponse.chatId message)
             && bool_decide (Some (MessageResponse.chatId message)
                             = selectedChatId)
             && negb (bool_decide (MessageResponse.senderId message
                                   = user_id user))
          then Some (MessageResponse.chatId message) else None)
       prev.

(** [prev.findIndex((c) => c.id === chatId)], [None] for -1. *)
Definition findIndex (chatId : string) (prev : list Chat.t) : option nat :=
  fst <$> list_find (λ c, Chat.id c = chatId) prev.

(** The second updater: the chat of the message moves to the front. *)
Definition moveToFront (chatId : string) (prev : list Chat.t) : list Chat.t :=
  match findIndex chatId prev with
  | Some (S i) =>
      match prev !! S i with
      | Some chat => chat :: delete (S i) prev
      | None => prev
      end
  | _ => prev
  end.

(** The [onNewMessage] subscription of MainChat on the chat list: both
    updaters in turn. *)
Definition onNewMessage (user : User) (selectedChatId : option string)
    (message : MessageResponse.t) (prev : list Chat.t) : list Chat.t :=
  moveToFront (MessageResponse.chatId message)
    (bump user selectedChatId message <$> prev).

(** [handleChatSelect] after [api.chats.markAsRead] resolved:
    [{ ...c, unreadCount: { ...c.unreadCount, [user.id]: 0 } }]. *)
Definition markedAsRead (user : User) (chatId : string) (prev : list Chat.t)
    : list Chat.t :=
  (λ c, if bool_decide (Chat.id c = chatId)
        then Chat.mk (Chat.id c) (Chat.participants c) (Chat.type c)
               (Chat.lastMessage c)
               (Some (<[user_id user := 0%Z]> (default ∅ (Chat.unreadCount c))))
               (Chat.createdAt c) (Chat.updatedAt c)
        else c) <$> prev.

End ChatList.

(** ** Typing indicators and their expiry timers (MainChat.tsx) *)

Module Typing.

(** The payload of a typing event of the socket. *)
Record TypingEvent : Set :=
  { chatId : string; userId : string; isTyping : bool }.

(** A pending [setTimeout] of the runtime: its handle, the clock value at
    which it is due, and the user id its callback closes over. Handles are
    positive, hence truthy in [if (existingTimeout)]. *)
Record Timer : Set := { handle : positive; due : N; forUser : string }.

(** [typingUsers] is the React state cell, [typingTimeoutRef] the
    [Map<string, Timeout>] held in the ref; [pending], [nextHandle] and
    [now] (milliseconds) belong to the runtime. *)
Record State : Type := mk
  { selectedChatId : option string;
    typingUsers : gset string;
    typingTimeoutRef : gmap string positive;
    pending : list Timer;
    nextHandle : positive;
    now : N }.

Definition initial : State := mk None ∅ ∅ [] 1%positive 0%N.

(** The delay of the expiry timer, in milliseconds. *)
Definition typingDelay : N := 5000.

Definition setTypingUsers (f : gset string → gset string) (s : State) : State :=
  mk (selectedChatId s) (f (typingUsers s)) (typingTimeoutRef s) (pending s)
     (nextHandle s) (now s).

Definition setRef (f : gmap string positive → gmap string positive)
    (s : State) : State :=
  mk (selectedChatId s) (typingUsers s) (f (typingTimeoutRef s)) (pending s)
     (nextHandle s) (now s).

(** [clearTimeout(h)]: the timer with that handle will not fire. *)
Definition clearTimeout (h : positive) (s : State) : State :=
  mk (selectedChatId s) (typingUsers s) (typingTimeoutRef s)
     (filter (λ t, handle t ≠ h) (pending s)) (nextHandle s) (now s).

(** [setTimeout(callback, delay)], the callback being the expiry of [u]:
    returns the fresh handle. *)
Definition setTimeout (delay : N) (u : string) (s : State) : positive * State :=
  (nextHandle s,
   mk (selectedChatId s) (typingUsers s) (typingTimeoutRef s)
      (pending s ++ [{| handle := nextHandle s; due := (now s + delay)%N;
                        forUser := u |}])
      (Pos.succ (nextHandle s)) (now s)).

(** The [socketService.onTyping] handler. *)
Definition onTyping (event : TypingEvent) (s : State) : State :=
  if negb (bool_decide (Some (chatId event) = selectedChatId s)) then s
  else if isTyping event then
    let s1 := setTypingUsers (λ prev, prev ∪ {[userId event]}) s in
    let s2 :=
      match typingTimeoutRef s1 !! userId event with
      | Some existingTimeout => clearTimeout existingTimeout s1
      | None => s1
      end in
    let '(timeout, s3) := setTimeout typingDelay (userId event) s2 in
    setRef (λ r, <[userId event := timeout]> r) s3
  else
    let s1 := setTypingUsers (λ prev, prev ∖ {[userId event]}) s in
    match typingTimeoutRef s1 !! userId event with
    | Some existingTimeout =>
        setRef (λ r, delete (userId event) r) (clearTimeout existingTimeout s1)
    | None => s1
    end.

(** The callback of the expiry timer of user [u]. *)
Definition onTimeout (u : string) (s : State) : State :=
  setRef (λ r, delete u r) (setTypingUsers (λ prev, prev ∖ {[u]}) s).

(** The runtime fires a due timer: it leaves the queue, its callback runs. *)
Definition fire (t : Timer) (s : State) : State :=
  onTimeout (forUser t) (clearTimeout (handle t) s).

Definition isDue (clock : N) (t : Timer) : Prop := (due t ≤ clock)%N.

#[global] Instance isDue_dec clock t : Decision (isDue clock t).
Proof. unfold isDue. apply _. Defined.

(** [dt] milliseconds pass, then every timer that has become due fires, in
    queue order. The callbacks start no timers, so the timers due are those
    of the queue at that moment. *)
Definition advance (dt : N) (s : State) : State :=
  let s1 := mk (selectedChatId s) (typingUsers s) (typingTimeoutRef s)
               (pending s) (nextHandle s) (now s + dt)%N in
  foldl (λ st t, fire t st) s1 (filter (isDue (now s1)) (pending s1)).

(** The cleanup of the socket effect:
    [timeouts.forEach((timeout) => clearTimeout(timeout)); timeouts.clear()]. *)
Definition cleanup (s : State) : State :=
  setRef (λ _, ∅)
    (foldr clearTimeout s (snd <$> map_to_list (typingTimeoutRef s))).

(** [handleChatSelect] on these cells: the selection changes and the typing
    set is emptied; the effect depends on [selectedChatId], so its cleanup
    runs when the selection really changed. *)
Definition selectChat (chat : string) (s : State) : State :=
  let s1 := if bool_decide (selectedChatId s = Some chat) then s
            else cleanup s in
  mk (Some chat) ∅ (typingTimeoutRef s1) (pending s1) (nextHandle s1) (now s1).

Inductive Event : Set :=
  | Signal (event : TypingEvent)
  | Elapse (dt : N)
  | Select (chat : string).

Definition step (e : Event) (s : State) : State :=
  match e with
  | Signal event => onTyping event s
  | Elapse dt => advance dt s
  | Select chat => selectChat chat s
  end.

Definition run (es : list Event) (s : State) : State :=
  foldl (λ st e, step e st) s es.

(** A typing event the handler acts on for user [u] in state [s]. *)
Definition concerns (u : string) (e : Event) : bool :=
  match e with
  | Signal event => bool_decide (userId event = u)
  | _ => false
  end.

(** The states the client can be in. *)
Inductive reachable : State → Prop :=
  | reachable_initial : reachable initial
  | reachable_step e s : reachable s → reachable (step e s).

(** The pending timers of user [u]. *)
Definition timersOf (u : string) (s : State) : list Timer :=
  filter (λ t, forUser t = u) (pending s).

(** The timer of [u] is retired: taken from the queue and the ref, and [u]
    from the typing set. Both the stop branch and the expiry do this. *)
Definition retire (u : string) (h : positive) (s : State) : State :=
  mk (selectedChatId s) (typingUsers s ∖ {[u]}) (delete u (typingTimeoutRef s))
     (filter (λ t, handle t ≠ h) (pending s)) (nextHandle s) (now s).

(** A timer for [u] is armed, [u] having none. *)
Definition arm (u : string) (s : State) : State :=
  mk (selectedChatId s) (typingUsers s ∪ {[u]})
     (<[u := nextHandle s]> (typingTimeoutRef s))
     (pending s ++ [{| handle := nextHandle s; due := (now s + typingDelay)%N;
                       forUser := u |}])
     (Pos.succ (nextHandle s)) (now s).

(** The bookkeeping of the ref agrees with the runtime: handles are not
    reused, the pending timers are exactly the ones the ref records, each
    under the user it will expire, and every user shown as typing has one. *)
Record coherent (s : State) : Prop :=
  { handles_distinct : NoDup (handle <$> pending s);
    pending_recorded :
      ∀ t, t ∈ pending s → typingTimeoutRef s !! forUser t = Some (handle t);
    recorded_pending :
      ∀ u h, typingTimeoutRef s !! u = Some h →
             ∃ t, t ∈ pending s ∧ handle t = h ∧ forUser t = u;
    handles_below_next :
      ∀ t, t ∈ pending s → (handle t < nextHandle s)%positive;
    typing_has_timer :
      ∀ u, u ∈ typingUsers s → is_Some (typingTimeoutRef s !! u) }.

(** Between two events no pending timer is overdue. *)
Definition punctual (s : State) : Prop :=
  ∀ t, t ∈ pending s → (now s < due t)%N.

(** Every pending timer of [u] is due by [d]. *)
Definition bounded (u : string) (d : N) (s : State) : Prop :=
  ∀ t, t ∈ pending s → forUser t = u → (due t ≤ d)%N.

End Typing.

(** ** The chat routes of the server (server/src/routes/chats.ts) *)

Module ChatRoutes.

(** The typed errors of [../utils] the routes throw. [InternalError] stands
    for an exception that is not one of them (a BSON or type error), which
    the error middleware answers with status 500. *)
Inductive HttpError : Set :=
  | BadRequestError (message : string)
  | ForbiddenError (message : string)
  | NotFoundError (message : string)
  | InternalError.

(** A JS number as [Number.isInteger] sees it: an integer, or anything else
    (a fraction, [NaN], an infinity). The comparisons of the routes are
    reached for integers only. *)
Inductive JsNumber : Set :=
  | JsInt (z : Z)
  | JsOther.

Definition Number_isInteger (n : JsNumber) : bool :=
  match n with JsInt _ => true | JsOther => false end.

(** An ObjectId is kept as its canonical hexadecimal string. *)
Abbreviation ObjectId := string (only parsing).

Record Profile : Set :=
  { position : option string; company : option string; category : option string }.

Record UserDoc : Set :=
  { firstName : string;
    lastName : string;
    avatarUrl : option string;
    profile : option Profile }.

Record LastMessageDoc : Set :=
  { lm_content : option string; lm_senderId : ObjectId; lm_timestamp : Z }.

(** A chat document; its [_id] is its key in the collection. *)
Record ChatDoc : Type := mkChatDoc
  { participants : list ObjectId;
    type : string;
    lastMessage : option LastMessageDoc;
    unreadCount : option (gmap string Z);
    createdAt : Z;
    updatedAt : Z }.

Record DB : Type := mkDB
  { chats : gmap ObjectId ChatDoc;
    users : gmap ObjectId UserDoc }.

(** The queries a handler sends to the persistence layer, in order. *)
Inductive DbOp : Set :=
  | CountDocuments (participant : ObjectId)
  | Find (participant : ObjectId) (skip limit : Z)
  | FindById (chatId : ObjectId)
  | FindByIdAndUpdate (chatId : ObjectId) (path : string).

(** A handler: from the database to a result or a thrown error, the
    database after it and the queries it made. *)
Record Outcome (A : Type) : Type := mkOutcome
  { result : HttpError + A; after : DB; queries : list DbOp }.
Arguments mkOutcome {A} _ _ _.
Arguments result {A} _.
Arguments after {A} _.
Arguments queries {A} _.

Definition Handler (A : Type) : Type := DB → Outcome A.

Definition pure {A} (a : A) : Handler A := λ db, mkOutcome (inr a) db [].

Definition throw {A} (e : HttpError) : Handler A := λ db, mkOutcome (inl e) db [].

Definition bind {A B} (m : Handler A) (k : A → Handler B) : Handler B :=
  λ db,
    let o := m db in
    match result o with
    | inl e => mkOutcome (inl e) (after o) (queries o)
    | inr a =>
        let o' := k a (after o) in
        mkOutcome (result o') (after o') (queries o ++ queries o')
    end.

Notation "x <- m ;; k" := (bind m (λ x, k))
  (at level 100, m at next level, right associativity).
Notation "m ;;; k" := (bind m (λ _, k))
  (at level 100, right associativity).

Definition check {A} (o : option A) (e : HttpError) : Handler A :=
  match o with Some a => pure a | None => throw e end.

Definition require (b : bool) (e : HttpError) : Handler unit :=
  if b then pure tt else throw e.

(** [Chat.findById(id)] *)
Definition findById (id : ObjectId) : Handler (option ChatDoc) :=
  λ db, mkOutcome (inr (chats db !! id)) db [FindById id].

(** [Chat.findByIdAndUpdate(id, { $set: { ['unreadCount.' + key]: 0 } })]:
    an atomic update of one field of one document; no document, no change. *)
Definition setUnreadZero (key : string) (chat : ChatDoc) : ChatDoc :=
  mkChatDoc (participants chat) (type chat) (lastMessage chat)
    (Some (<[key := 0%Z]> (default ∅ (unreadCount chat))))
    (createdAt chat) (updatedAt chat).

Definition findByIdAndUpdate_unread (id : ObjectId) (key : string)
    : Handler unit :=
  λ db,
    mkOutcome (inr tt)
      (mkDB (alter (setUnreadZero key) id (chats db)) (users db))
      [FindByIdAndUpdate id ("unreadCount." +:+ key)].

(** [getUnreadCount]: [unreadCount.get(userId) || 0], or
    [unreadCount[userId] || 0] on a plain object. *)
Definition getUnreadCount (unreadCount : gmap string Z) (userId : string) : Z :=
  default 0%Z (unreadCount !! userId).

(** The sort key of [.sort({ 'lastMessage.timestamp': -1, updatedAt: -1 })];
    a missing field sorts below every date. *)
Definition sortKey (chat : ChatDoc) : option Z * Z :=
  (lm_timestamp <$> lastMessage chat, updatedAt chat).

Definition precedes (a b : ChatDoc) : bool :=
  match (sortKey a).1, (sortKey b).1 with
  | Some x, Some y => (y <? x)%Z || ((x =? y)%Z && (updatedAt b <=? updatedAt a)%Z)
  | Some _, None => true
  | None, Some _ => false
  | None, None => (updatedAt b <=? updatedAt a)%Z
  end.

Fixpoint insertSorted (x : ObjectId * ChatDoc) (l : list (ObjectId * ChatDoc))
    : list (ObjectId * ChatDoc) :=
  match l with
  | [] => [x]
  | y :: l' => if precedes x.2 y.2 then x :: l else y :: insertSorted x l'
  end.

Definition sortChats (l : list (ObjectId * ChatDoc)) : list (ObjectId * ChatDoc) :=
  foldr insertSorted [] l.

(** The documents matching [{ participants: userId }]. *)
Definition chatsOf (userId : ObjectId) (db : DB) : list (ObjectId * ChatDoc) :=
  filter (λ kc, userId ∈ participants kc.2) (map_to_list (chats db)).

(** [Chat.countDocuments({ participants })] *)
Definition countDocuments (userId : ObjectId) : Handler nat :=
  λ db, mkOutcome (inr (length (chatsOf userId db))) db [CountDocuments userId].

(** [Chat.find({ participants }).sort(..).skip(offset).limit(limit).lean()] *)
Definition find (userId : ObjectId) (offset limit : Z)
    : Handler (list (ObjectId * ChatDoc)) :=
  λ db,
    mkOutcome
      (inr (take (Z.to_nat limit)
              (drop (Z.to_nat offset) (sortChats (chatsOf userId db)))))
      db [Find userId offset limit].

(** A participant as the responses show it. *)
Record ParticipantView : Set :=
  { pv_id : ObjectId;
    pv_firstName : string;
    pv_lastName : string;
    pv_avatarUrl : option string;
    pv_position : string;
    pv_company : string;
    pv_category : string }.

(** [x || d] on an optional string: missing and empty both give [d]. *)
Definition orElse (x : option string) (d : string) : string :=
  match x with
  | Some s => if bool_decide (s = "") then d else s
  | None => d
  end.

(** [populate('participants')] followed by the [map] of the responses; a
    reference to no user is left out by the population. *)
Definition populate (db : DB) (ids : list ObjectId) : list ParticipantView :=
  omap (λ i,
          (λ u, {| pv_id := i;
                   pv_firstName := firstName u;
                   pv_lastName := lastName u;
                   pv_avatarUrl := avatarUrl u;
                   pv_position := orElse (profile u ≫= position) "";
                   pv_company := orElse (profile u ≫= company) "";
                   pv_category := orElse (profile u ≫= category) "Other" |})
          <$> users db !! i)
       ids.

Record ChatView : Type := mkChatView
  { cv_id : ObjectId;
    cv_participants : list ParticipantView;
    cv_type : string;
    cv_lastMessage : option LastMessageDoc;
    cv_unreadCount : gmap string Z;
    cv_createdAt : Z;
    cv_updatedAt : Z }.

Record ChatListResponse : Type := mkChatListResponse
  { r_message : string;
    r_total : nat;
    r_count : nat;
    r_limit : Z;
    r_offset : Z;
    r_chats : list ChatView }.

(** The chat-list entry of one document: the counter map is copied as it is
    stored ([forEach] on a Map, [Object.assign] on an object), and is empty
    when the field is not an object. *)
Definition listView (db : DB) (kc : ObjectId * ChatDoc) : ChatView :=
  mkChatView kc.1 (populate db (participants kc.2)) (type kc.2)
    (lastMessage kc.2) (default ∅ (unreadCount kc.2))
    (createdAt kc.2) (updatedAt kc.2).

Section Routes.

(** [new Types.ObjectId(s)] on a string: the canonical id, or [None] when
    the constructor throws; [Types.ObjectId.isValid] accepts the strings
    the constructor accepts. Both belong to the BSON library. *)
Variable toObjectId : string → option ObjectId.

(** The raw value of a query parameter and its conversion [Number(raw)]. *)
Context {QueryValue : Type}.
Variable Number : QueryValue → JsNumber.

Definition ObjectId_isValid (s : string) : bool :=
  bool_decide (is_Some (toObjectId s)).

(** [limitRaw !== undefined] and the checks on [Number(limitRaw)]. *)
Definition parseLimit (limitRaw : option QueryValue) : Handler Z :=
  match limitRaw with
  | None => pure 50%Z
  | Some raw =>
      match Number raw with
      | JsInt parsedLimit =>
          if (parsedLimit <? 1)%Z || (100 <? parsedLimit)%Z
          then throw (BadRequestError "limit must be an integer between 1 and 100")
          else pure parsedLimit
      | JsOther =>
          throw (BadRequestError "limit must be an integer between 1 and 100")
      end
  end.

Definition parseOffset (offsetRaw : option QueryValue) : Handler Z :=
  match offsetRaw with
  | None => pure 0%Z
  | Some raw =>
      match Number raw with
      | JsInt parsedOffset =>
          if (parsedOffset <? 0)%Z
          then throw (BadRequestError "offset must be a non-negative integer")
          else pure parsedOffset
      | JsOther =>
          throw (BadRequestError "offset must be a non-negative integer")
      end
  end.

(** [GET /]: the chat list of the caller [currentUserId]. *)
Definition getChats (currentUserId : string)
    (limitRaw offsetRaw : option QueryValue) : Handler ChatListResponse :=
  currentUserObjectId <- check (toObjectId currentUserId) InternalError;;
  limit <- parseLimit limitRaw;;
  offset <- parseOffset offsetRaw;;
  total <- countDocuments currentUserObjectId;;
  found <- find currentUserObjectId offset limit;;
  λ db,
    pure (mkChatListResponse "Chats retrieved" total (length found) limit
            offset (listView db <$> found)) db.

(** [GET /:chatId]: the details of one chat. Here every participant gets a
    counter, through [getUnreadCount]. *)
Definition getChat (chatId currentUserId : string) : Handler ChatView :=
  currentUserObjectId <- check (toObjectId currentUserId) InternalError;;
  require (ObjectId_isValid chatId) (BadRequestError "Invalid chat ID format");;;
  id <- check (toObjectId chatId) InternalError;;
  found <- findById id;;
  chat <- check found (NotFoundError "Chat not found");;
  λ db,
    let populated := populate db (participants chat) in
    (require (bool_decide (currentUserObjectId ∈ pv_id <$> populated))
       (ForbiddenError "You do not have access to this chat");;;
     stored <- check (unreadCount chat) InternalError;;
     pure (mkChatView id populated (type chat) (lastMessage chat)
             (foldl (λ obj p, <[pv_id p := getUnreadCount stored (pv_id p)]> obj)
                ∅ populated)
             (createdAt chat) (updatedAt chat))) db.

(** [POST /:chatId/read]: mark the chat as read for the caller. *)
Definition markAsRead (chatId currentUserId : string) : Handler string :=
  currentUserObjectId <- check (toObjectId currentUserId) InternalError;;
  require (ObjectId_isValid chatId) (BadRequestError "Invalid chat ID format");;;
  id <- check (toObjectId chatId) InternalError;;
  found <- findById id;;
  chat <- check found (NotFoundError "Chat not found");;
  require (bool_decide (currentUserObjectId ∈ participants chat))
    (ForbiddenError "You do not have access to this chat");;;
  findByIdAndUpdate_unread id currentUserId;;;
  pure "Chat marked as read".

(** What a request asks for: the default when the parameter is omitted, and
    otherwise the integer [Number] reads, within the bounds of the route. *)
Definition limitAsked (limitRaw : option QueryValue) (limit : Z) : Prop :=
  match limitRaw with
  | None => limit = 50%Z
  | Some raw => Number raw = JsInt limit ∧ (1 ≤ limit ≤ 100)%Z
  end.

Definition offsetAsked (offsetRaw : option QueryValue) (offset : Z) : Prop :=
  match offsetRaw with
  | None => offset = 0%Z
  | Some raw => Number raw = JsInt offset ∧ (0 ≤ offset)%Z
  end.

End Routes.

(** The strings BSON's [ObjectId] constructor accepts: 24 hexadecimal
    digits, read without regard to case. *)
Definition isHexDigit (c : Ascii.ascii) : bool :=
  let n := Ascii.nat_of_ascii c in
  ((48 <=? n) && (n <=? 57) || (65 <=? n) && (n <=? 70)
   || (97 <=? n) && (n <=? 102))%nat.

Definition lowerHex (c : Ascii.ascii) : Ascii.ascii :=
  let n := Ascii.nat_of_ascii c in
  if ((65 <=? n) && (n <=? 70))%nat then Ascii.ascii_of_nat (n + 32) else c.

Definition hex24 (s : string) : option ObjectId :=
  let cs := String.list_ascii_of_string s in
  if (length cs =? 24)%nat && forallb isHexDigit cs
  then Some (String.string_of_list_ascii (lowerHex <$> cs))
  else None.

(** A reading of [Number] for the examples: right on the empty string and
    on strings of decimal digits; every other string is read as a
    non-integer. *)
Fixpoint digitsValue (acc : Z) (cs : list Ascii.ascii) : option Z :=
  match cs with
  | [] => Some acc
  | c :: cs' =>
      let n := Ascii.nat_of_ascii c in
      if ((48 <=? n) && (n <=? 57))%nat
      then digitsValue (10 * acc + Z.of_nat (n - 48))%Z cs'
      else None
  end.

Definition decimalNumber (s : string) : JsNumber :=
  match String.list_ascii_of_string s with
  | [] => JsInt 0
  | cs => match digitsValue 0 cs with Some z => JsInt z | None => JsOther end
  end.

End ChatRoutes.

(** ** Sample data *)

Module Sample.

Definition alice : User :=
  {| user_id := "u-alice"; user_firstName := "Alice"; user_lastName := "A" |}.

Definition bob : User :=
  {| user_id := "u-bob"; user_firstName := "Bob"; user_lastName := "B" |}.

(** A delivered text message [i] of chat [chat] from [from], saying [text]. *)
Definition text (i chat : string) (from : User) (text : string) : Message.t :=
  Message.mk i chat (user_id from) (MainChat.senderOf from) (Some text) None
    None [] "2024-01-15T10:30:00.000Z" "sent" (Some "2024-01-15T10:30:01.000Z")
    None None None.

(** The same message as the server sends it. *)
Definition served (i chat : string) (from : User) (text : string)
    : MessageResponse.t :=
  MessageResponse.mk i chat (user_id from) None (Some text) None None []
    "2024-01-15T10:30:00.000Z" "sent" None.

(** [n] stored messages of chat [chat], numbered from [k]. *)
Fixpoint stored (chat : string) (k n : nat) : list Message.t :=
  match n with
  | 0 => []
  | S n' => text ("m" +:+ pretty k) chat bob "hi" :: stored chat (S k) n'
  end.

Definition chat (i : string) (counters : option (gmap string Z)) : Chat.t :=
  Chat.mk i
    [ {| Chat.p_id := "u-alice"; Chat.p_firstName := "Alice"; Chat.p_lastName := "A" |};
      {| Chat.p_id := "u-bob"; Chat.p_firstName := "Bob"; Chat.p_lastName := "B" |} ]
    "private" None counters "2024-01-01T00:00:00.000Z" "2024-01-01T00:00:00.000Z".

(** A server holding 60 messages of chat "c1" and 3 of chat "c2". *)
Definition store (chat : string) : list Message.t :=
  if bool_decide (chat = "c1") then stored "c1" 0 60
  else if bool_decide (chat = "c2") then stored "c2" 100 3
  else [].

(** The scroll container scrolled to its very top. *)
Definition atTop : MainChat.ScrollBox :=
  {| MainChat.scrollTop := 0; MainChat.scrollHeight := 4000;
     MainChat.clientHeight := 600 |}.

(** A database with two users and the one chat between them, in which
    only the first has a stored counter. *)
Definition idA : string := "507f1f77bcf86cd799439011".
Definition idB : string := "507f1f77bcf86cd799439012".
Definition idC : string := "507f1f77bcf86cd799439013".

Definition userDoc (first last : string) : ChatRoutes.UserDoc :=
  {| ChatRoutes.firstName := first; ChatRoutes.lastName := last;
     ChatRoutes.avatarUrl := None; ChatRoutes.profile := None |}.

Definition db : ChatRoutes.DB :=
  ChatRoutes.mkDB
    {[ idC := ChatRoutes.mkChatDoc [idA; idB] "private" None
                (Some {[ idA := 2%Z ]}) 1000 2000 ]}
    {[ idA := userDoc "Alice" "A"; idB := userDoc "Bob" "B" ]}.

End Sample.

(** ** Toasts *)

(** One [addToast(kind, text)] call. *)
Definition Toast : Set := (string * string)%type.

(** ** One message of the window: the edit form (MessageWindow.tsx) *)

Module MessageItem.

(** The [useState] cells of a [MessageItem]. *)
Record State : Set := mkState
  { imageError : bool;
    showMenu : bool;
    isEditing : bool;
    editContent : string;
    editLoading : bool }.

(** [message.content || ''] *)
Definition contentOr (message : Message.t) : string :=
  match Message.content message with
  | Some c => c
  | None => ""
  end.

(** [message.content] as a condition: missing and empty are both falsy. *)
Definition hasContent (message : Message.t) : bool :=
  match Message.content message with
  | Some c => negb (bool_decide (c = ""))
  | None => false
  end.

Definition initial (message : Message.t) : State :=
  mkState false false false (contentOr message) false.

(** [15 * 60 * 1000] *)
Definition fifteenMinutes : Z := 15 * 60 * 1000.

Section Item.

(** [new Date(timestamp).getTime()], [None] standing for [NaN], and
    [String.prototype.trim]: both belong to the JS runtime. *)
Variable getTime : string → option Z.
Variable trim : string → string.

(** [canEdit]; a comparison with [NaN] is false. *)
Definition canEdit (isMine : bool) (message : Message.t) (now : Z) : bool :=
  if negb isMine || bool_decide (Message.timestamp message = "") then false
  else match getTime (Message.timestamp message) with
       | Some messageTime => (now - messageTime <? fifteenMinutes)%Z
       | None => false
       end.

(** [handleEditStart] *)
Definition handleEditStart (isMine : bool) (message : Message.t) (now : Z)
    (s : State) : State :=
  if negb (canEdit isMine message now) || negb (hasContent message) then s
  else mkState (imageError s) false true (contentOr message) (editLoading s).

(** [editContent.trim() === message.content.trim()], reached with a
    content that is there. *)
Definition unchanged (message : Message.t) (s : State) : bool :=
  bool_decide (trim (editContent s) = trim (contentOr message)).

(** The guard of [handleEditSave]; [hasHandler] is [onEditMessage] as a
    condition. *)
Definition saveSkipped (hasHandler : bool) (message : Message.t) (s : State)
    : bool :=
  negb hasHandler || negb (hasContent message) || unchanged message s.

(** The [onEditMessage(message.id, editContent.trim(), message.chatId)] call
    [handleEditSave] makes, if any. *)
Definition handleEditSave_call (hasHandler : bool) (message : Message.t)
    (s : State) : option (string * string * string) :=
  if saveSkipped hasHandler message s then None
  else Some (Message.id message, trim (editContent s), Message.chatId message).

(** [handleEditSave] up to its [await]. *)
Definition handleEditSave_begin (hasHandler : bool) (message : Message.t)
    (s : State) : State :=
  if saveSkipped hasHandler message s
  then mkState (imageError s) (showMenu s) false (editContent s) (editLoading s)
  else mkState (imageError s) (showMenu s) (isEditing s) (editContent s) true.

(** [handleEditSave] from its [await] on: the [try], the [catch] and the
    [finally]. *)
Definition handleEditSave_settle (message : Message.t) (res : Settled unit)
    (s : State) : State * list Toast :=
  match res with
  | Resolved _ =>
      (mkState (imageError s) (showMenu s) false (editContent s) false,
       [("success", "Сообщение отредактировано")])
  | Rejected =>
      (mkState (imageError s) (showMenu s) false (contentOr message) false,
       [("error", "Не удалось отредактировать сообщение")])
  end.

(** [handleEditCancel] *)
Definition handleEditCancel (message : Message.t) (s : State) : State :=
  mkState (imageError s) (showMenu s) false (contentOr message) (editLoading s).

(** [handleKeyDown] in the edit form: what a key press makes of the form,
    and the call it leads to. Enter without Shift saves, Escape cancels. *)
Definition handleKeyDown_call (hasHandler : bool) (message : Message.t)
    (key : string) (shiftKey : bool) (s : State)
    : option (string * string * string) :=
  if bool_decide (key = "Enter") && negb shiftKey
  then handleEditSave_call hasHandler message s
  else None.

Definition handleKeyDown (hasHandler : bool) (message : Message.t)
    (key : string) (shiftKey : bool) (s : State) : State :=
  if bool_decide (key = "Enter") && negb shiftKey
  then handleEditSave_begin hasHandler message s
  else if bool_decide (key = "Escape") then handleEditCancel message s
  else s.


End Item.

End MessageItem.

(** ** What else the handlers of MainChat.tsx do *)

Module MainChatEffects.

(** [handleEditMessage]: the toast of its [catch]. *)
Definition handleEditMessage_toasts (user : option User) (res : Settled unit)
    : list Toast :=
  match user, res with
  | Some _, Rejected => [("error", "Не удалось отредактировать сообщение")]
  | _, _ => []
  end.

(** The promise [handleEditMessage] returns to its caller: the [catch] has
    no [throw], so whatever the API call did, it resolves. *)
Definition handleEditMessage_promise (user : option User) (res : Settled unit)
    : Settled unit :=
  match user with
  | None => Resolved tt
  | Some _ => match res with Resolved _ => Resolved tt | Rejected => Resolved tt end
  end.

(** [handleSendMessage] on the chat list, after [api.messages.send]
    resolved with [data]: the selected chat gets the message as its last
    one; nothing moves and no counter changes. *)
Definition sentLastMessage (selectedChatId : string) (user : User)
    (data : MessageResponse.t) (prev : list Chat.t) : list Chat.t :=
  (λ chat,
     if bool_decide (Chat.id chat = selectedChatId)
     then Chat.mk (Chat.id chat) (Chat.participants chat) (Chat.type chat)
            (Some {| Chat.lm_content := MessageResponse.content data;
                     Chat.lm_senderId := user_id user;
                     Chat.lm_timestamp := MessageResponse.timestamp data |})
            (Chat.unreadCount chat) (Chat.createdAt chat) (Chat.updatedAt chat)
     else chat) <$> prev.

(** The updater both [onUserStatus] subscriptions run, the one of MainChat
    and the one of the message window: a copy of the set with the user added
    when the status is 'online' and removed otherwise. *)
Record UserStatus : Set := { status_userId : string; status_status : string }.

Definition onUserStatus (status : UserStatus) (prev : gset string) : gset string :=
  if bool_decide (status_status status = "online")
  then prev ∪ {[status_userId status]}
  else prev ∖ {[status_userId status]}.

(** The subscription of the message window: none without a chat id, and
    nothing to update without the [setOnlineUsers] prop. *)
Definition MessageWindow_onUserStatus (chatId : string) (hasSetter : bool)
    (status : UserStatus) (prev : gset string) : gset string :=
  if negb (MessageWindow.subscribed chatId) then prev
  else if negb hasSetter then prev
  else onUserStatus status prev.

(** One status event with the message window mounted: MainChat's
    subscription runs, then the window's. *)
Definition statusEvent (chatId : string) (status : UserStatus)
    (prev : gset string) : gset string :=
  MessageWindow_onUserStatus chatId true status (onUserStatus status prev).

(** A chat is opened and its first page [page] has arrived: the handler
    of the chat list, then the answer to the call it made. *)
Definition opened (user : option User) (chat : string) (page : list Message.t)
    : MainChat.State :=
  let s0 := MainChat.step user (MainChat.ChatSelect chat) MainChat.initial in
  MainChat.step user (MainChat.FetchSettled 0 (Resolved page)) s0.

(** One round of scrolling up: the load-more handler, then the answer
    [page] to the call it made, if it made one. *)
Definition loadMoreRound (user : option User) (page : list Message.t)
    (s : MainChat.State) : MainChat.State :=
  let s1 := MainChat.step user MainChat.LoadMore s in
  MainChat.step user (MainChat.FetchSettled 0 (Resolved page)) s1.

(** A chat is opened and scrolled back, each call answered before the
    next is made, by the pages [pages] in turn. *)
Definition fetchPages (user : option User) (chat : string)
    (pages : list (list Message.t)) : MainChat.State :=
  match pages with
  | [] => MainChat.step user (MainChat.ChatSelect chat) MainChat.initial
  | page :: rest =>
      foldl (λ s p, loadMoreRound user p s) (opened user chat page) rest
  end.

(** The socket handlers and optimistic updates, as events on the history
    state: each replaces the message list by [upd] of it. *)
Definition listUpdates (upds : list (list Message.t → list Message.t))
    : list MainChat.Event :=
  MainChat.SetMessages <$> upds.

End MainChatEffects.

(** The events that leave the typing indicator of [u] alone: time passing
    and typing events of other users, but no chat selection. *)
Module TypingEvents.

Definition leavesAlone (u : string) (e : Typing.Event) : bool :=
  match e with
  | Typing.Signal event => negb (bool_decide (Typing.userId event = u))
  | Typing.Elapse _ => true
  | Typing.Select _ => false
  end.

(** While the clock is before [d], [u] is typing and its timer, due at
    [d], is pending. *)
Definition shownUntil (u : string) (d : N) (s : Typing.State) : Prop :=
  (Typing.now s < d)%N →
  u ∈ Typing.typingUsers s
  ∧ ∃ t, t ∈ Typing.pending s ∧ Typing.forUser t = u ∧ Typing.due t = d.

End TypingEvents.

(** The edit form of a message wired to MainChat, as [MessageWindow] does
    with [onEditMessage={handleEditMessage}]: the save, the API call
    settled as [api], and what is left of the form, the list and the
    toasts. *)
Module EditFlow.

Section Flow.
Variable trim : string → string.

Definition save (user : option User) (message : Message.t) (nowISO : string)
    (api : Settled unit) (item : MessageItem.State) (messages : list Message.t)
    : MessageItem.State * list Message.t * list Toast :=
  let began := MessageItem.handleEditSave_begin trim true message item in
  match MessageItem.handleEditSave_call trim true message item with
  | None => (began, messages, [])
  | Some (messageId, content, _) =>
      let settled :=
        MessageItem.handleEditSave_settle message
          (MainChatEffects.handleEditMessage_promise user api) began in
      (settled.1,
       MainChat.handleEditMessage user messageId content nowISO api messages,
       MainChatEffects.handleEditMessage_toasts user api ++ settled.2)
  end.

End Flow.

End EditFlow.

(** * Properties *)

(** ** Lists of messages addressed by id *)

Section MessageLists.
Implicit Types (l prev : list Message.t) (m : Message.t) (i : string).

Lemma some_id_elem i l : Message.some_id i l = true ↔ i ∈ Message.ids l.
Proof.
  unfold Message.some_id, Message.ids. induction l as [|m l IH]; csimpl.
  - split; [done | by intros ?%elem_of_nil].
  - rewrite orb_true_iff, bool_decide_eq_true, IH, elem_of_cons.
    split; intros [?|?]; auto.
Qed.

Lemma some_id_false i l : Message.some_id i l = false ↔ i ∉ Message.ids l.
Proof. rewrite <- some_id_elem. by destruct (Message.some_id i l). Qed.

Lemma ids_app l1 l2 : Message.ids (l1 ++ l2) = Message.ids l1 ++ Message.ids l2.
Proof. apply fmap_app. Qed.

(** Mapping at an id that does not occur changes nothing. *)
Lemma map_id_absent i f l : i ∉ Message.ids l → Message.map_id i f l = l.
Proof.
  unfold Message.map_id, Message.ids. induction l as [|m l IH]; csimpl; [done|].
  intros [Hm Hl]%not_elem_of_cons. rewrite IH by done.
  by rewrite bool_decide_eq_false_2 by done.
Qed.

Lemma map_id_app i f l1 l2 :
  Message.map_id i f (l1 ++ l2) = Message.map_id i f l1 ++ Message.map_id i f l2.
Proof. apply fmap_app. Qed.

Lemma map_id_lookup i f l k :
  Message.map_id i f l !! k
  = (λ m, if bool_decide (Message.id m = i) then f m else m) <$> l !! k.
Proof. apply list_lookup_fmap. Qed.

(** Removing an id that does not occur changes nothing. *)
Lemma remove_id_absent i l : i ∉ Message.ids l → Message.remove_id i l = l.
Proof.
  unfold Message.remove_id, Message.ids. induction l as [|m l IH]; csimpl; [done|].
  intros [Hm Hl]%not_elem_of_cons.
  rewrite filter_cons_True by done. by rewrite IH.
Qed.

Lemma remove_id_app i l1 l2 :
  Message.remove_id i (l1 ++ l2) = Message.remove_id i l1 ++ Message.remove_id i l2.
Proof. apply filter_app. Qed.

Lemma remove_id_ids i l : i ∉ Message.ids (Message.remove_id i l).
Proof.
  unfold Message.ids, Message.remove_id.
  intros (m & -> & [Hne _]%list_elem_of_filter)%list_elem_of_fmap. done.
Qed.

End MessageLists.

(** ** Inbound events on the open chat *)

(** C2. For every message list and every inbound event of the open chat
    (whose handlers are subscribed, the chat id being non-empty): a
    message-created event whose id already occurs leaves the list as it is,
    and applying the same created event twice is the same as applying it
    once; a message-edited event keeps the length and the order, leaves
    every message with another id untouched and changes at most the content
    and the edit timestamp, to those of the event, of a message with the
    matching id; a message-deleted event keeps, in order, exactly the
    messages with another id, so the matching id is gone entirely. *)
Theorem inbound_events_reconcile (chatId : string) (prev : list Message.t) :
  chatId ≠ "" →
  (∀ message, MessageResponse.chatId message = chatId →
     (MessageResponse.id message ∈ Message.ids prev →
        MessageWindow.onNewMessage chatId message prev = prev)
     ∧ MessageWindow.onNewMessage chatId message
         (MessageWindow.onNewMessage chatId message prev)
       = MessageWindow.onNewMessage chatId message prev)
  ∧ (∀ data, MessageWindow.ed_chatId data = chatId →
       let next := MessageWindow.onMessageEdited chatId data prev in
       length next = length prev
       ∧ ∀ k m, prev !! k = Some m →
           ∃ m', next !! k = Some m'
             ∧ Message.same_but_edit m m'
             ∧ (Message.id m ≠ MessageWindow.ed_messageId data → m' = m)
             ∧ (Message.id m = MessageWindow.ed_messageId data →
                  Message.content m' = MessageWindow.ed_content data
                  ∧ Message.editedAt m' = MessageWindow.ed_editedAt data))
  ∧ (∀ data, MessageWindow.del_chatId data = chatId →
       let next := MessageWindow.onMessageDeleted chatId data prev in
       (MessageWindow.del_messageId data ∉ Message.ids next)
       ∧ (next `sublist_of` prev)
       ∧ ∀ m, m ∈ next ↔
              m ∈ prev ∧ Message.id m ≠ MessageWindow.del_messageId data).
Proof.
  intros Hopen.
  assert (MessageWindow.subscribed chatId = true) as Hsub.
  { unfold MessageWindow.subscribed. by rewrite bool_decide_eq_false_2. }
  split; [|split].
  - intros message Hchat.
    assert (∀ l, MessageResponse.id message ∈ Message.ids l →
                 MessageWindow.onNewMessage chatId message l = l) as Hdup.
    { intros l Hin. unfold MessageWindow.onNewMessage.
      rewrite Hsub, bool_decide_eq_true_2 by done. simpl.
      by rewrite (proj2 (some_id_elem _ _) Hin). }
    split; [apply Hdup|].
    destruct (Message.some_id (MessageResponse.id message) prev) eqn:Hsome.
    + apply some_id_elem in Hsome. by rewrite !(Hdup prev Hsome).
    + apply Hdup. unfold MessageWindow.onNewMessage.
      rewrite Hsub, bool_decide_eq_true_2, Hsome by done. simpl.
      rewrite ids_app. apply elem_of_app. right. apply list_elem_of_singleton.
      done.
  - intros data Hchat next. subst next. unfold MessageWindow.onMessageEdited.
    rewrite Hsub, bool_decide_eq_true_2 by done. simpl.
    split; [apply length_fmap|].
    intros k m Hk. rewrite map_id_lookup, Hk. simpl.
    case_bool_decide as Hid.
    + eexists; split; [done|]. by repeat split.
    + exists m; split; [done|]. repeat split; try done. by destruct m.
  - intros data Hchat next. subst next. unfold MessageWindow.onMessageDeleted.
    rewrite Hsub, bool_decide_eq_true_2 by done. simpl.
    split; [apply remove_id_ids|]. split; [apply sublist_filter|].
    intros m. unfold Message.remove_id. rewrite list_elem_of_filter. tauto.
Qed.

Lemma inbound_events_reconcile_witness :
  let ev := Sample.served "m1" "c1" Sample.bob "hello" in
  let prev := [Sample.text "m0" "c1" Sample.alice "hi"] in
  MessageWindow.onNewMessage "c1" ev (MessageWindow.onNewMessage "c1" ev prev)
  = MessageWindow.onNewMessage "c1" ev prev.
Proof.
  intros ev prev.
  refine (proj2 (proj1 (inbound_events_reconcile "c1" prev _) ev _));
    [discriminate | reflexivity].
Defined.

(** ** Optimistic edit *)

(** C1. A failed edit is not rolled back: the [catch] branch of
    [handleEditMessage] hands the list it finds back unchanged, so after
    the failure the message list is the optimistically updated one, for
    every list and every edit. On the list holding one message "m1" with
    content "old", the failed edit of "m1" to "new" leaves content "new",
    a fresh edit timestamp and the editing flag [false], which is not the
    list before the edit. *)
Theorem handleEditMessage_failure_keeps_edit :
  (∀ user messageId content nowISO prev,
     MainChat.handleEditMessage (Some user) messageId content nowISO Rejected prev
     = MainChat.edit_optimistic messageId content nowISO prev)
  ∧ let before := [Sample.text "m1" "c1" Sample.alice "old"] in
    let after :=
      MainChat.handleEditMessage (Some Sample.alice) "m1" "new"
        "2024-01-15T10:31:00.000Z" Rejected before in
    Message.content <$> after = [Some "new"]
    ∧ Message.editedAt <$> after = [Some "2024-01-15T10:31:00.000Z"]
    ∧ Message._isEditing <$> after = [Some false]
    ∧ after ≠ before.
Proof.
  split; [reflexivity|].
  repeat split; try reflexivity. discriminate.
Qed.

(** ** Optimistic send *)

Lemma tempMessage_id chat user content now nowISO :
  Message.id (MainChat.tempMessage chat user content now nowISO)
  = MainChat.tempId now.
Proof. reflexivity. Qed.

(** Settling a send touches the record with the temporary id only, wherever
    it stands in the list by then. *)
Lemma send_settle_at tid user data laterISO (l1 l2 : list Message.t) t :
  Message.id t = tid → tid ∉ Message.ids (l1 ++ l2) →
  MainChat.send_then tid user data laterISO (l1 ++ t :: l2)
  = l1 ++ MainChat.sentMessage user data laterISO :: l2
  ∧ MainChat.send_catch tid (l1 ++ t :: l2) = l1 ++ l2.
Proof.
  intros Ht Hfresh. rewrite ids_app in Hfresh.
  apply not_elem_of_app in Hfresh as [H1 H2].
  unfold MainChat.send_then, MainChat.send_catch. split.
  - rewrite map_id_app. rewrite (map_id_absent _ _ l1) by done.
    unfold Message.map_id at 1. rewrite fmap_cons.
    rewrite bool_decide_eq_true_2 by done.
    fold (Message.map_id tid (λ _, MainChat.sentMessage user data laterISO) l2).
    by rewrite map_id_absent.
  - rewrite remove_id_app. rewrite (remove_id_absent _ l1) by done.
    unfold Message.remove_id at 1. rewrite filter_cons_False by (intros E; by apply E).
    fold (Message.remove_id tid l2). by rewrite remove_id_absent.
Qed.

(** Two sends at one value of the millisecond clock get the same temporary
    id. While the first, "hello", is still pending, "world" is sent at the
    same clock value: its temporary id already occurs in the list. When the
    second send fails, the filter removes both temporary records, that of
    the pending first send too; when it succeeds, both are replaced by the
    server's message for "world". *)
Lemma optimistic_send_same_clock_example :
  let now := 1705314600000%N in
  let iso := "2024-01-15T10:30:00.000Z" in
  let m0 := Sample.text "m0" "c1" Sample.bob "hi" in
  let hello := MainChat.tempMessage "c1" Sample.alice "hello" now iso in
  let world := MainChat.tempMessage "c1" Sample.alice "world" now iso in
  let prev := MainChat.send_optimistic hello [m0] in
  let send := MainChat.handleSendMessage (Some "c1") (Some Sample.alice) "world"
                now iso None in
  let data := Sample.served "m7" "c1" Sample.alice "world" in
  let sent := MainChat.sentMessage Sample.alice data "2024-01-15T10:30:02.000Z" in
  prev = [m0; hello]
  ∧ Message.id world ∈ Message.ids prev
  ∧ send Rejected "2024-01-15T10:30:02.000Z" prev = [m0]
  ∧ send Rejected "2024-01-15T10:30:02.000Z" prev ≠ prev
  ∧ send (Resolved data) "2024-01-15T10:30:02.000Z" prev = [m0; sent; sent]
  ∧ send (Resolved data) "2024-01-15T10:30:02.000Z" prev ≠ [m0; hello; sent].
Proof.
  vm_compute. split; [done|]. split; [right; left|].
  split; [done|]. split; [discriminate|]. split; [done | discriminate].
Qed.

(** C5, as the code has it. For every optimistic send in a selected chat
    the temporary record is appended at once: its id is ["temp-"] followed
    by the millisecond clock, its status "sending", its sender the current
    user. The id is that of the clock, fresh or not. When the server call
    succeeds, every record of the list that carries the temporary id is
    replaced by the server's message with the current user as sender,
    status "sent" and the delivered timestamp, all other fields being the
    server's; when the upload or the server call fails, every record that
    carries the temporary id is removed; records with other ids keep their
    place and content. When the temporary id is fresh for the list, that
    is the one temporary record: success gives the old list followed by
    the server's message and failure gives the old list again; and
    wherever the one record with the temporary id stands when the call
    settles, it alone is replaced or removed. *)
Theorem optimistic_send (chat : string) (user : User) (content : string)
    (now : N) (nowISO : string) (prev : list Message.t) :
  chat ≠ "" →
  let tid := MainChat.tempId now in
  let tmp := MainChat.tempMessage chat user content now nowISO in
  let send := MainChat.handleSendMessage (Some chat) (Some user) content now nowISO in
  let sent := MainChat.sentMessage user in
  MainChat.send_optimistic tmp prev = prev ++ [tmp]
  ∧ tmp = Message.mk ("temp-" +:+ pretty now) chat (user_id user)
            {| sender_id := user_id user;
               sender_firstName := user_firstName user;
               sender_lastName := user_lastName user |}
            (Some content) None None [] nowISO "sending" None None None None
  ∧ (∀ data laterISO,
       sent data laterISO
       = Message.mk (MessageResponse.id data) (MessageResponse.chatId data)
           (MessageResponse.senderId data)
           {| sender_id := user_id user;
              sender_firstName := user_firstName user;
              sender_lastName := user_lastName user |}
           (MessageResponse.content data) (MessageResponse.media data)
           (MessageResponse.editedAt data) (MessageResponse.deletedFor data)
           (MessageResponse.timestamp data) "sent" (Some laterISO)
           None None None)
  ∧ (∀ upload data laterISO, upload ≠ Some Rejected →
       send upload (Resolved data) laterISO prev
       = ((λ m, if bool_decide (Message.id m = tid) then sent data laterISO else m)
            <$> prev) ++ [sent data laterISO])
  ∧ (∀ res laterISO,
       send (Some Rejected) res laterISO prev
       = filter (λ m, Message.id m ≠ tid) prev)
  ∧ (∀ upload laterISO,
       send upload Rejected laterISO prev
       = filter (λ m, Message.id m ≠ tid) prev)
  ∧ (tid ∉ Message.ids prev →
       (∀ upload data laterISO, upload ≠ Some Rejected →
          send upload (Resolved data) laterISO prev = prev ++ [sent data laterISO])
       ∧ (∀ res laterISO, send (Some Rejected) res laterISO prev = prev)
       ∧ (∀ upload laterISO, send upload Rejected laterISO prev = prev))
  ∧ (∀ l1 l2 t data laterISO,
       Message.id t = tid →
       tid ∉ Message.ids (l1 ++ l2) →
       MainChat.send_then tid user data laterISO (l1 ++ t :: l2)
       = l1 ++ sent data laterISO :: l2
       ∧ MainChat.send_catch tid (l1 ++ t :: l2) = l1 ++ l2).
Proof.
  intros Hchat tid tmp send sent.
  assert (MainChat.truthy (Some chat) = true) as Hsel.
  { simpl. by rewrite bool_decide_eq_false_2. }
  assert (∀ data laterISO,
    MainChat.send_then tid user data laterISO (MainChat.send_optimistic tmp prev)
    = Message.map_id tid (λ _, sent data laterISO) prev ++ [sent data laterISO])
    as Hthen.
  { intros data laterISO. unfold MainChat.send_then, MainChat.send_optimistic.
    rewrite map_id_app. f_equal. unfold Message.map_id. rewrite fmap_cons.
    by rewrite bool_decide_eq_true_2 by done. }
  assert (MainChat.send_catch tid (MainChat.send_optimistic tmp prev)
          = Message.remove_id tid prev) as Hcatch.
  { unfold MainChat.send_catch, MainChat.send_optimistic.
    rewrite remove_id_app. unfold Message.remove_id at 2.
    rewrite filter_cons_False by (intros E; by apply E).
    apply app_nil_r. }
  assert (∀ upload data laterISO, upload ≠ Some Rejected →
            send upload (Resolved data) laterISO prev
            = Message.map_id tid (λ _, sent data laterISO) prev
              ++ [sent data laterISO]) as Hok.
  { intros upload data laterISO Hup. subst send.
    unfold MainChat.handleSendMessage. rewrite Hsel. simpl.
    destruct upload as [[|]|]; try done; apply Hthen. }
  assert (∀ res laterISO,
            send (Some Rejected) res laterISO prev = Message.remove_id tid prev)
    as Hupload.
  { intros res laterISO. subst send. unfold MainChat.handleSendMessage.
    rewrite Hsel. simpl. apply Hcatch. }
  assert (∀ upload laterISO,
            send upload Rejected laterISO prev = Message.remove_id tid prev)
    as Hfail.
  { intros upload laterISO. subst send. unfold MainChat.handleSendMessage.
    rewrite Hsel. simpl. destruct upload as [[|]|]; apply Hcatch. }
  split; [done|]. split; [done|]. split; [done|].
  split; [exact Hok|]. split; [exact Hupload|]. split; [exact Hfail|].
  split.
  - intros Hfresh. split; [|split].
    + intros upload data laterISO Hup. rewrite Hok by done.
      by rewrite map_id_absent.
    + intros res laterISO. rewrite Hupload. by apply remove_id_absent.
    + intros upload laterISO. rewrite Hfail. by apply remove_id_absent.
  - intros l1 l2 t data laterISO Ht Hfresh. by apply send_settle_at.
Qed.

Lemma optimistic_send_witness :
  let prev := [Sample.text "m0" "c1" Sample.bob "hi"] in
  MainChat.handleSendMessage (Some "c1") (Some Sample.alice) "hello" 1705314600000
    "2024-01-15T10:30:00.000Z" None Rejected "2024-01-15T10:30:02.000Z" prev
  = filter (λ m, Message.id m ≠ MainChat.tempId 1705314600000) prev.
Proof.
  intros prev.
  refine (proj1 (proj2 (proj2 (proj2 (proj2 (proj2
    (optimistic_send "c1" Sample.alice "hello" 1705314600000
       "2024-01-15T10:30:00.000Z" prev _)))))) None _).
  discriminate.
Defined.

(** ** Message history *)

Section History.
Import MainChat.
Implicit Types (s : State) (f : Fetch) (page : list Message.t).

(** What a successful page does to the state, whichever chat it is for. *)
Lemma loadMessages_settle_resolved f page s :
  let s' := loadMessages_settle f (Resolved page) s in
  selectedChatId s' = selectedChatId s
  ∧ messages s' = (if bool_decide (fetch_offset f = 0) then reverse page
                   else reverse page ++ messages s)
  ∧ messagesLoading s' = false
  ∧ hasMoreMessages s' = bool_decide (length page = pageSize)
  ∧ messagesOffset s' = fetch_offset f + length page
  ∧ inflight s' = inflight s.
Proof. by repeat split. Qed.

Lemma handleLoadMoreMessages_blocked s :
  messagesLoading s = true ∨ hasMoreMessages s = false →
  handleLoadMoreMessages s = s.
Proof.
  unfold handleLoadMoreMessages. intros [H|H]; rewrite H;
    destruct (selectedChatId s); try done;
    by rewrite ?andb_false_r.
Qed.

Lemma handleScroll_blocked box s :
  messagesLoading s = true ∨ hasMoreMessages s = false →
  handleScroll box s
  = match box with
    | Some b => setShouldAutoScroll
                  (scrollHeight b - scrollTop b - clientHeight b <? 100)%Z s
    | None => s
    end.
Proof.
  unfold handleScroll. destruct box as [b|]; [|done].
  intros [H|H]; rewrite H; by rewrite ?andb_false_r.
Qed.



(** With a render before each event the handlers are those of [step]. *)
Lemma stepPage_rendered user e s :
  cells (stepPage user (Handler e) (rendered s)) = step user e s.
Proof. by destruct e. Qed.


End History.

(** C4. After a fetch that returned a page of k messages, "more available"
    is true exactly when k = 50, the stored offset is the offset of the
    request plus k, the first page (offset 0) replaces the list by the
    reversed page and a later page is reversed and put before the messages
    already there; a load-more request asks at the stored offset, which so
    advances by k. For a chat with 60 stored messages: selecting the chat
    fetches at offset 0 and yields the 50 newest, more-available true and
    offset 50; scrolling to the top then fetches at offset 50, the page has
    the remaining 10, more-available becomes false, the offset 60, and the
    list is the whole history, oldest first. *)
Theorem loadMessages_pagination (user : User) (chat : string)
    (store : string → list Message.t) (top : MainChat.ScrollBox) :
  chat ≠ "" →
  length (store chat) = 60 →
  (MainChat.scrollTop top < 100)%Z →
  (∀ f page s,
     let s' := MainChat.loadMessages_settle f (Resolved page) s in
     (MainChat.hasMoreMessages s' = true ↔ length page = 50)
     ∧ MainChat.messagesOffset s' = MainChat.fetch_offset f + length page
     ∧ (MainChat.fetch_offset f = 0 → MainChat.messages s' = reverse page)
     ∧ (MainChat.fetch_offset f ≠ 0 →
          MainChat.messages s' = reverse page ++ MainChat.messages s))
  ∧ (∀ s f, MainChat.inflight (MainChat.handleLoadMoreMessages s)
            = MainChat.inflight s ++ [f] →
            MainChat.fetch_offset f = MainChat.messagesOffset s)
  ∧ let s0 := MainChat.step (Some user) (MainChat.ChatSelect chat) MainChat.initial in
    let s1 := MainChat.step (Some user) (MainChat.respond store 0 s0) s0 in
    let s2 := MainChat.step (Some user) (MainChat.Scroll (Some top)) s1 in
    let s3 := MainChat.step (Some user) (MainChat.respond store 0 s2) s2 in
    MainChat.inflight s0 = [ {| MainChat.fetch_chatId := chat; MainChat.fetch_offset := 0 |} ]
    ∧ MainChat.messages s1 = reverse (take 50 (store chat))
    ∧ length (MainChat.messages s1) = 50
    ∧ MainChat.hasMoreMessages s1 = true
    ∧ MainChat.messagesOffset s1 = 50
    ∧ MainChat.inflight s2 = [ {| MainChat.fetch_chatId := chat; MainChat.fetch_offset := 50 |} ]
    ∧ length (MainChat.listMessages (store chat) 50 50) = 10
    ∧ MainChat.messages s3 = reverse (store chat)
    ∧ MainChat.hasMoreMessages s3 = false
    ∧ MainChat.messagesOffset s3 = 60
    ∧ MainChat.inflight s3 = [].
Proof.
  intros Hchat Hlen Htop. split; [|split].
  - intros f page s s'. subst s'.
    destruct (loadMessages_settle_resolved f page s) as (_ & Hm & _ & Hh & Ho & _).
    rewrite Hh, Ho, Hm. unfold MainChat.pageSize.
    rewrite bool_decide_eq_true. repeat split; try done.
    + intros ->. done.
    + intros Hne. by rewrite bool_decide_eq_false_2.
  - intros s f. unfold MainChat.handleLoadMoreMessages.
    destruct (MainChat.selectedChatId s) as [c|];
      [destruct (_ && _ && _)|]; simpl.
    + by intros [_ [= <-]]%app_inj_tail.
    + intros Heq. apply (f_equal length) in Heq.
      rewrite length_app in Heq. simpl in Heq. lia.
    + intros Heq. apply (f_equal length) in Heq.
      rewrite length_app in Heq. simpl in Heq. lia.
  - assert (MainChat.truthy (Some chat) = true) as Hsel.
    { simpl. by rewrite bool_decide_eq_false_2. }
    assert (length (take 50 (store chat)) = 50) as Hfirst.
    { rewrite length_take. lia. }
    assert (length (drop 50 (store chat)) = 10) as Hrest.
    { rewrite length_drop. lia. }
    assert (take 50 (drop 50 (store chat)) = drop 50 (store chat)) as Hlast.
    { apply take_ge. lia. }
    intros s0 s1 s2 s3.
    assert (s0 = MainChat.mkState (Some chat) [] true false 0 true
                   [ {| MainChat.fetch_chatId := chat; MainChat.fetch_offset := 0 |} ])
      as Hs0 by reflexivity.
    assert (s1 = MainChat.mkState (Some chat) (reverse (take 50 (store chat)))
                   false true 50 true []) as Hs1.
    { subst s1. rewrite Hs0. unfold MainChat.respond, MainChat.step. simpl.
      unfold MainChat.loadMessages_settle, MainChat.applyPage,
        MainChat.listMessages, MainChat.pageSize. simpl.
      rewrite drop_0, Hfirst. reflexivity. }
    assert (s2 = MainChat.mkState (Some chat) (reverse (take 50 (store chat)))
                   true true 50
                   (MainChat.scrollHeight top - MainChat.scrollTop top
                    - MainChat.clientHeight top <? 100)%Z
                   [ {| MainChat.fetch_chatId := chat; MainChat.fetch_offset := 50 |} ])
      as Hs2.
    { subst s2. rewrite Hs1. unfold MainChat.step, MainChat.handleScroll.
      cbn [MainChat.hasMoreMessages MainChat.messagesLoading].
      rewrite (proj2 (Z.ltb_lt _ _) Htop).
      unfold MainChat.handleLoadMoreMessages, MainChat.setShouldAutoScroll.
      cbn [MainChat.selectedChatId MainChat.hasMoreMessages
           MainChat.messagesLoading andb negb].
      rewrite Hsel. reflexivity. }
    assert (s3 = MainChat.mkState (Some chat) (reverse (store chat))
                   false false 60
                   (MainChat.scrollHeight top - MainChat.scrollTop top
                    - MainChat.clientHeight top <? 100)%Z
                   []) as Hs3.
    { subst s3. rewrite Hs2. unfold MainChat.respond, MainChat.step. simpl.
      unfold MainChat.loadMessages_settle, MainChat.applyPage,
        MainChat.listMessages, MainChat.pageSize. simpl.
      rewrite Hlast, Hrest, <- reverse_app, take_drop. reflexivity. }
    rewrite Hs3, Hs2, Hs1, Hs0. unfold MainChat.listMessages. rewrite Hlast.
    simpl. rewrite length_reverse. by repeat split.
Qed.

Lemma loadMessages_pagination_witness :
  let step := MainChat.step (Some Sample.alice) in
  let s0 := step (MainChat.ChatSelect "c1") MainChat.initial in
  let s1 := step (MainChat.respond Sample.store 0 s0) s0 in
  let s2 := step (MainChat.Scroll (Some Sample.atTop)) s1 in
  let s3 := step (MainChat.respond Sample.store 0 s2) s2 in
  MainChat.hasMoreMessages s1 = true
  ∧ MainChat.hasMoreMessages s3 = false
  ∧ MainChat.messagesOffset s3 = 60.
Proof.
  intros step s0 s1 s2 s3.
  destruct (loadMessages_pagination Sample.alice "c1" Sample.store Sample.atTop)
    as (_ & _ & _ & _ & _ & Hmore1 & _ & _ & _ & _ & Hmore3 & Hoff3 & _).
  - discriminate.
  - vm_compute. reflexivity.
  - vm_compute. reflexivity.
  - repeat split; assumption.
Defined.

(** ** Responses that arrive after a chat switch *)

(** A chat switch while a fetch is pending: "c1" is selected, then "c2", and
    only then the page of "c1" arrives. The page is applied: the list of the
    selected chat "c2" now holds the messages of "c1", and the stored offset
    is the length of that page. *)
Lemma stale_response_is_applied_example :
  let s := MainChat.run (Some Sample.alice)
             [MainChat.ChatSelect "c1"; MainChat.ChatSelect "c2"]
             MainChat.initial in
  let s' := MainChat.step (Some Sample.alice) (MainChat.respond Sample.store 0 s) s in
  MainChat.selectedChatId s = Some "c2"
  ∧ MainChat.fetch_chatId <$> MainChat.inflight s !! 0 = Some "c1"
  ∧ MainChat.selectedChatId s' = Some "c2"
  ∧ Message.chatId <$> MainChat.messages s' = replicate 50 "c1"
  ∧ MainChat.messages s' ≠ MainChat.messages s
  ∧ MainChat.messagesOffset s' = 50
  ∧ MainChat.messagesOffset s' ≠ MainChat.messagesOffset s.
Proof. vm_compute. repeat split; discriminate. Qed.

(** C6, as the code has it. [loadMessages] never looks at the selected chat
    when its response arrives: a page of a chat that is no longer the
    selected one is applied like any other. The selection stays, the list
    becomes the reversed page (offset 0) or the reversed page before the
    list, "more available" and the stored offset are taken from the stale
    page, and the loading flag is cleared. *)
Theorem stale_response_is_applied (user : option User) (s : MainChat.State)
    (i : nat) (f : MainChat.Fetch) (page : list Message.t) :
  MainChat.inflight s !! i = Some f →
  Some (MainChat.fetch_chatId f) ≠ MainChat.selectedChatId s →
  let s' := MainChat.step user (MainChat.FetchSettled i (Resolved page)) s in
  MainChat.selectedChatId s' = MainChat.selectedChatId s
  ∧ MainChat.messages s'
    = (if bool_decide (MainChat.fetch_offset f = 0) then reverse page
       else reverse page ++ MainChat.messages s)
  ∧ MainChat.hasMoreMessages s' = bool_decide (length page = 50)
  ∧ MainChat.messagesOffset s' = MainChat.fetch_offset f + length page
  ∧ MainChat.messagesLoading s' = false.
Proof.
  intros Hf _ s'. subst s'. unfold MainChat.step. rewrite Hf.
  destruct (loadMessages_settle_resolved f page (MainChat.dropFetch i s))
    as (Hsel & Hm & Hl & Hh & Ho & _).
  by rewrite Hsel, Hm, Hl, Hh, Ho.
Qed.

Lemma stale_response_is_applied_witness :
  let s := MainChat.run (Some Sample.alice)
             [MainChat.ChatSelect "c1"; MainChat.ChatSelect "c2"]
             MainChat.initial in
  let page := Sample.stored "c1" 0 2 in
  MainChat.messages
    (MainChat.step (Some Sample.alice) (MainChat.FetchSettled 0 (Resolved page)) s)
  = reverse page.
Proof.
  intros s page.
  refine (proj1 (proj2 (stale_response_is_applied (Some Sample.alice) s 0
    {| MainChat.fetch_chatId := "c1"; MainChat.fetch_offset := 0 |} page _ _))).
  - reflexivity.
  - vm_compute. discriminate.
Defined.

(** ** No second fetch while one is loading *)




(** ** Unread counters of the chat list *)

Section UnreadCounters.
Implicit Types (c chat : Chat.t) (l prev : list Chat.t) (cid uid : string).

Lemma find_cons cid c l :
  Chat.find cid (c :: l)
  = if bool_decide (Chat.id c = cid) then Some c else Chat.find cid l.
Proof. reflexivity. Qed.

(** A map that keeps ids commutes with the lookup by id. *)
Lemma find_fmap cid (g : Chat.t → Chat.t) l :
  (∀ c, Chat.id (g c) = Chat.id c) →
  Chat.find cid (g <$> l) = g <$> Chat.find cid l.
Proof.
  intros Hg. induction l as [|c l IH]; [done|].
  rewrite fmap_cons, !find_cons, Hg. by case_bool_decide.
Qed.

Lemma find_elem cid c l : Chat.find cid l = Some c → c ∈ l ∧ Chat.id c = cid.
Proof.
  induction l as [|x l IH]; [done|]. rewrite find_cons.
  case_bool_decide as Hx.
  - intros [= ->]. split; [left | done].
  - intros [? ?]%IH. split; [by right | done].
Qed.

(** Deleting a chat with another id does not change the lookup. *)
Lemma find_delete_other cid k x l :
  l !! k = Some x → Chat.id x ≠ cid →
  Chat.find cid (delete k l) = Chat.find cid l.
Proof.
  revert k. induction l as [|c l IH]; intros [|k] Hk Hne; try done.
  - simpl in Hk. injection Hk as ->. change (delete 0 (x :: l)) with l.
    rewrite find_cons. by rewrite bool_decide_eq_false_2.
  - simpl in Hk. change (delete (S k) (c :: l)) with (c :: delete k l).
    rewrite !find_cons. case_bool_decide; [done|]. by eapply IH.
Qed.

(** [findIndex] points at the chat [find] returns. *)
Lemma findIndex_find cid k l :
  ChatList.findIndex cid l = Some k →
  ∃ c, l !! k = Some c ∧ Chat.id c = cid ∧ Chat.find cid l = Some c.
Proof.
  unfold ChatList.findIndex.
  destruct (list_find _ l) as [[k' c]|] eqn:Hfind; [|done].
  intros [= <-]. apply list_find_Some in Hfind as (Hk & Hid & Hbefore).
  exists c. repeat split; try done.
  revert k' Hk Hbefore. induction l as [|x l IH]; intros [|k'] Hk Hbefore;
    try done.
  - simpl in Hk. injection Hk as ->. rewrite find_cons.
    by rewrite bool_decide_eq_true_2.
  - rewrite find_cons. rewrite bool_decide_eq_false_2.
    + apply (IH k'); [done|]. intros j y Hj Hlt.
      apply (Hbefore (S j) y); [done | lia].
    + apply (Hbefore 0 x); [done | lia].
Qed.

Lemma moveToFront_find target cid l :
  Chat.find cid (ChatList.moveToFront target l) = Chat.find cid l.
Proof.
  unfold ChatList.moveToFront.
  destruct (ChatList.findIndex target l) as [[|k]|] eqn:Hidx; try done.
  apply findIndex_find in Hidx as (c & Hk & Hid & Hfind).
  rewrite Hk, find_cons. case_bool_decide as Hc.
  - rewrite <- Hc, Hid. done.
  - apply (find_delete_other _ _ c); [done | done].
Qed.

Lemma moveToFront_elem target c l : c ∈ ChatList.moveToFront target l → c ∈ l.
Proof.
  unfold ChatList.moveToFront.
  destruct (ChatList.findIndex target l) as [[|k]|]; try done.
  destruct (l !! S k) as [x|] eqn:Hk; [|done].
  intros [->|Hin]%elem_of_cons.
  - by eapply list_elem_of_lookup_2.
  - by eapply list_elem_of_delete_inv.
Qed.

Lemma bump_id user sel message c :
  Chat.id (ChatList.bump user sel message c) = Chat.id c.
Proof. unfold ChatList.bump. by case_bool_decide. Qed.

(** The counters of one chat after the first updater. *)
Lemma bump_unread user sel message c uid :
  Chat.unread (ChatList.bump user sel message c) uid
  = (Chat.unread c uid
     + if decide (Chat.id c = MessageResponse.chatId message
                  ∧ uid = user_id user
                  ∧ MessageResponse.senderId message ≠ user_id user
                  ∧ Some (MessageResponse.chatId message) ≠ sel)
       then 1 else 0)%Z.
Proof.
  unfold ChatList.bump.
  case_bool_decide as Hid; simpl.
  2:{ rewrite decide_False by tauto. lia. }
  case_bool_decide as Hsender; simpl.
  { rewrite decide_False by tauto. unfold Chat.unread. simpl. lia. }
  case_bool_decide as Hsel; simpl.
  { rewrite decide_False by tauto. unfold Chat.unread. simpl. lia. }
  unfold Chat.unread at 1. simpl.
  destruct (decide (uid = user_id user)) as [->|Hu].
  - rewrite lookup_insert_eq. simpl. by rewrite decide_True.
  - rewrite lookup_insert_ne by done. rewrite decide_False by tauto.
    unfold Chat.unread. destruct (Chat.unreadCount c); simpl; [lia|].
    rewrite lookup_empty. simpl. lia.
Qed.

Lemma bump_nonneg user sel message c :
  (∀ m u n, Chat.unreadCount c = Some m → m !! u = Some n → (0 ≤ n)%Z) →
  ∀ m u n, Chat.unreadCount (ChatList.bump user sel message c) = Some m →
           m !! u = Some n → (0 ≤ n)%Z.
Proof.
  intros Hc m u n. unfold ChatList.bump.
  case_bool_decide as Hid; simpl; [|apply Hc].
  destruct (negb _ && negb _); [|apply Hc].
  intros [= <-]. destruct (decide (u = user_id user)) as [->|Hu].
  - rewrite lookup_insert_eq. intros [= <-].
    assert (0 ≤ Chat.unread c (user_id user))%Z; [|lia].
    unfold Chat.unread. destruct (Chat.unreadCount c) as [m0|] eqn:Hm0; simpl; [|done].
    destruct (m0 !! user_id user) as [n0|] eqn:Hn0; simpl; [|done].
    by eapply Hc.
  - rewrite lookup_insert_ne by done.
    destruct (Chat.unreadCount c) as [m0|] eqn:Hm0; simpl.
    + by eapply Hc.
    + by rewrite lookup_empty.
Qed.

End UnreadCounters.

(** C3. For every chat list, whose counters are non-negative, and every
    inbound message-created event: a chat that is in the list is still in
    it afterwards, under the same id, and each of its counters has grown by
    exactly 1 if the chat is the chat of the event, the counter is the
    current user's, the sender is not the current user and the chat is not
    the selected one, and is unchanged otherwise (a missing counter counts
    as 0). So the current user's counter for the chat of the event is
    incremented by exactly 1 if and only if the sender is someone else and
    the chat is not open. No chat appears, and every counter is still
    non-negative. *)
Theorem unread_counter_on_new_message (user : User)
    (selectedChatId : option string) (message : MessageResponse.t)
    (chats : list Chat.t) :
  Chat.counters_nonneg chats →
  let chats' := ChatList.onNewMessage user selectedChatId message chats in
  (∀ cid c, Chat.find cid chats = Some c →
     ∃ c', Chat.find cid chats' = Some c'
       ∧ (∀ uid,
            Chat.unread c' uid
            = (Chat.unread c uid
               + if decide (cid = MessageResponse.chatId message
                            ∧ uid = user_id user
                            ∧ MessageResponse.senderId message ≠ user_id user
                            ∧ Some (MessageResponse.chatId message) ≠ selectedChatId)
                 then 1 else 0)%Z)
       ∧ (cid = MessageResponse.chatId message →
            Chat.unread c' (user_id user) = (Chat.unread c (user_id user) + 1)%Z
            ↔ MessageResponse.senderId message ≠ user_id user
              ∧ Some (MessageResponse.chatId message) ≠ selectedChatId))
  ∧ (∀ cid, Chat.find cid chats = None → Chat.find cid chats' = None)
  ∧ Chat.counters_nonneg chats'.
Proof.
  intros Hnn chats'. subst chats'. unfold ChatList.onNewMessage.
  split; [|split].
  - intros cid c Hc. rewrite moveToFront_find.
    rewrite find_fmap by (intros; apply bump_id). rewrite Hc. simpl.
    eexists; split; [done|].
    apply find_elem in Hc as [_ Hid].
    assert (∀ uid,
      Chat.unread (ChatList.bump user selectedChatId message c) uid
      = (Chat.unread c uid
         + if decide (cid = MessageResponse.chatId message
                      ∧ uid = user_id user
                      ∧ MessageResponse.senderId message ≠ user_id user
                      ∧ Some (MessageResponse.chatId message) ≠ selectedChatId)
           then 1 else 0)%Z) as Hdelta.
    { intros uid. rewrite bump_unread, Hid. done. }
    split; [done|]. intros ->. rewrite Hdelta. clear Hdelta.
    case_decide as Hcond.
    + split; [intros _; by destruct Hcond as (_ & _ & ? & ?) | done].
    + split; [lia | intros [? ?]; exfalso; by apply Hcond].
  - intros cid Hc. rewrite moveToFront_find.
    rewrite find_fmap by (intros; apply bump_id). by rewrite Hc.
  - intros c' m u n Hin%moveToFront_elem.
    apply list_elem_of_fmap in Hin as (c & -> & Hin).
    apply bump_nonneg. intros m0 u0 n0. by apply Hnn.
Qed.

Lemma unread_counter_on_new_message_witness :
  let chats := [Sample.chat "c1" (Some {["u-alice" := 2%Z]}); Sample.chat "c2" None] in
  let chats' :=
    ChatList.onNewMessage Sample.alice (Some "c1")
      (Sample.served "m9" "c2" Sample.bob "hello") chats in
  Chat.counters_nonneg chats'.
Proof.
  intros chats chats'.
  refine (proj2 (proj2 (unread_counter_on_new_message Sample.alice (Some "c1")
    (Sample.served "m9" "c2" Sample.bob "hello") chats _))).
  intros c m u n Hin Hm Hn.
  apply elem_of_cons in Hin as [->|Hin].
  - injection Hm as <-. destruct (decide (u = "u-alice")) as [->|Hu].
    + rewrite lookup_singleton_eq in Hn. injection Hn as <-. lia.
    + rewrite lookup_singleton_ne in Hn by done. discriminate.
  - apply list_elem_of_singleton in Hin as ->. discriminate.
Defined.

(** ** Typing indicators *)

Section TypingTimers.
Import Typing.
Implicit Types (s : State) (t : Timer) (u : string) (h : positive).

Lemma NoDup_fmap_elem {A B} (g : A → B) (l : list A) x y :
  NoDup (g <$> l) → x ∈ l → y ∈ l → g x = g y → x = y.
Proof.
  induction l as [|a l IH]; [by intros _ ?%elem_of_nil|].
  rewrite fmap_cons, NoDup_cons. intros [Ha Hl] Hx Hy Hxy.
  apply elem_of_cons in Hx as [->|Hx]; apply elem_of_cons in Hy as [->|Hy];
    try done.
  - exfalso. apply Ha. rewrite Hxy. by apply list_elem_of_fmap_2.
  - exfalso. apply Ha. rewrite <- Hxy. by apply list_elem_of_fmap_2.
  - by apply IH.
Qed.

Lemma NoDup_fmap_filter {A B} (g : A → B) (P : A → Prop)
    `{∀ x, Decision (P x)} (l : list A) :
  NoDup (g <$> l) → NoDup (g <$> filter P l).
Proof.
  induction l as [|a l IH]; [done|].
  rewrite fmap_cons, NoDup_cons. intros [Ha Hl].
  rewrite filter_cons. destruct (decide (P a)); [|by apply IH].
  rewrite fmap_cons. apply NoDup_cons. split; [|by apply IH].
  intros (b & Hab & [_ Hb]%list_elem_of_filter)%list_elem_of_fmap.
  apply Ha. rewrite Hab. by apply list_elem_of_fmap_2.
Qed.

Lemma filter_none {A} (P : A → Prop) `{∀ x, Decision (P x)} (l : list A) :
  (∀ x, x ∈ l → ¬ P x) → filter P l = [].
Proof.
  induction l as [|a l IH]; [done|]. intros Hl.
  rewrite filter_cons_False by (apply Hl; left).
  apply IH. intros x Hx. apply Hl. by right.
Qed.

Lemma filter_all {A} (P : A → Prop) `{∀ x, Decision (P x)} (l : list A) :
  (∀ x, x ∈ l → P x) → filter P l = l.
Proof.
  induction l as [|a l IH]; [done|]. intros Hl.
  rewrite filter_cons_True by (apply Hl; left).
  f_equal. apply IH. intros x Hx. apply Hl. by right.
Qed.

(** In a coherent state a handle names one pending timer. *)
Lemma coherent_handle_inj s t1 t2 :
  coherent s → t1 ∈ pending s → t2 ∈ pending s → handle t1 = handle t2 → t1 = t2.
Proof. intros [Hd _ _ _ _]. by apply NoDup_fmap_elem. Qed.

Lemma fire_retire t s : fire t s = retire (forUser t) (handle t) s.
Proof. reflexivity. Qed.

Lemma retire_coherent u h s :
  coherent s → typingTimeoutRef s !! u = Some h → coherent (retire u h s).
Proof.
  intros Hs Hu. pose proof Hs as [Hd Hpr Hrp Hlt Hty].
  assert (∀ t, t ∈ pending s → handle t ≠ h → forUser t ≠ u) as Hother.
  { intros t Ht Hne Heq. apply Hpr in Ht. rewrite Heq, Hu in Ht. by injection Ht. }
  split; simpl.
  - by apply NoDup_fmap_filter.
  - intros t [Hne Ht]%list_elem_of_filter.
    rewrite lookup_delete_ne by (apply not_eq_sym; by apply Hother). by apply Hpr.
  - intros u' h' [Hne Hu']%lookup_delete_Some.
    destruct (Hrp _ _ Hu') as (t & Ht & Hh & Hut).
    exists t. repeat split; try done. apply list_elem_of_filter. split; [|done].
    intros Heq. destruct (Hrp _ _ Hu) as (t0 & Ht0 & Hh0 & Hut0).
    assert (t = t0) as -> by (apply (coherent_handle_inj s); congruence).
    congruence.
  - intros t [_ Ht]%list_elem_of_filter. by apply Hlt.
  - intros u' [Hin Hne]%elem_of_difference.
    rewrite lookup_delete_ne by set_solver. by apply Hty.
Qed.

Lemma retire_punctual u h s : punctual s → punctual (retire u h s).
Proof. intros Hp t [_ Ht]%list_elem_of_filter. by apply Hp. Qed.

Lemma arm_coherent u s :
  coherent s → typingTimeoutRef s !! u = None → coherent (arm u s).
Proof.
  intros [Hd Hpr Hrp Hlt Hty] Hu.
  assert (∀ t, t ∈ pending s → forUser t ≠ u) as Hother.
  { intros t Ht Heq. apply Hpr in Ht. by rewrite Heq, Hu in Ht. }
  split; simpl.
  - rewrite fmap_app. apply NoDup_app. split; [done|]. split.
    + intros h (t & -> & Ht)%list_elem_of_fmap [Heq|[]%elem_of_nil]%elem_of_cons.
      simpl in Heq. apply Hlt in Ht. lia.
    + apply NoDup_singleton.
  - intros t [Ht| ->%list_elem_of_singleton]%elem_of_app.
    + rewrite lookup_insert_ne by (apply not_eq_sym; by apply Hother). by apply Hpr.
    + simpl. apply lookup_insert_eq.
  - intros u' h' [[-> <-]|[Hne Hu']]%lookup_insert_Some.
    + eexists. split; [apply elem_of_app; right; by left | done].
    + destruct (Hrp _ _ Hu') as (t & Ht & Hh & Hut).
      exists t. split; [apply elem_of_app; by left | done].
  - intros t [Ht| ->%list_elem_of_singleton]%elem_of_app.
    + apply Hlt in Ht. lia.
    + simpl. lia.
  - intros u' [Hin| ->%elem_of_singleton]%elem_of_union.
    + apply lookup_insert_is_Some'. right. by apply Hty.
    + apply lookup_insert_is_Some'. by left.
Qed.

Lemma arm_punctual u s : punctual s → punctual (arm u s).
Proof.
  intros Hp t [Ht| ->%list_elem_of_singleton]%elem_of_app; [by apply Hp|].
  simpl. unfold typingDelay. lia.
Qed.

(** The start branch re-arms: it retires the recorded timer, if any, and
    arms a new one. *)
Lemma onTyping_start s chat u :
  selectedChatId s = Some chat →
  onTyping {| chatId := chat; userId := u; isTyping := true |} s
  = match typingTimeoutRef s !! u with
    | Some h => arm u (retire u h s)
    | None => arm u s
    end.
Proof.
  intros Hsel. unfold onTyping. simpl.
  rewrite Hsel, bool_decide_eq_true_2 by done. simpl.
  destruct (typingTimeoutRef s !! u) as [h|]; [|done].
  unfold arm, retire, setRef, setTimeout, clearTimeout, setTypingUsers. simpl.
  f_equal.
  - apply set_eq. intros x.
    rewrite !elem_of_union, elem_of_difference, elem_of_singleton.
    destruct (decide (x = u)); tauto.
  - by rewrite insert_delete_eq.
Qed.

Lemma onTyping_stop s chat u :
  selectedChatId s = Some chat →
  onTyping {| chatId := chat; userId := u; isTyping := false |} s
  = match typingTimeoutRef s !! u with
    | Some h => retire u h s
    | None => setTypingUsers (λ prev, prev ∖ {[u]}) s
    end.
Proof.
  intros Hsel. unfold onTyping. simpl.
  rewrite Hsel, bool_decide_eq_true_2 by done. simpl.
  by destruct (typingTimeoutRef s !! u).
Qed.

Lemma onTyping_ignored s event :
  Some (chatId event) ≠ selectedChatId s → onTyping event s = s.
Proof. intros Hne. unfold onTyping. by rewrite bool_decide_eq_false_2. Qed.

Lemma onTyping_coherent event s :
  coherent s → punctual s →
  coherent (onTyping event s) ∧ punctual (onTyping event s).
Proof.
  intros Hs Hp. destruct event as [chat u typing].
  destruct (decide (Some chat = selectedChatId s)) as [Hsel|Hsel].
  2:{ by rewrite onTyping_ignored. }
  symmetry in Hsel. destruct typing.
  - rewrite (onTyping_start s chat u Hsel).
    destruct (typingTimeoutRef s !! u) as [h|] eqn:Hu.
    + split.
      * apply arm_coherent; [by apply retire_coherent|]. simpl.
        apply lookup_delete_eq.
      * by apply arm_punctual, retire_punctual.
    + split; [by apply arm_coherent | by apply arm_punctual].
  - rewrite (onTyping_stop s chat u Hsel).
    destruct (typingTimeoutRef s !! u) as [h|] eqn:Hu.
    + split; [by apply retire_coherent | by apply retire_punctual].
    + split; [|done]. destruct Hs as [Hd Hpr Hrp Hlt Hty].
      split; simpl; try done.
      intros u' [Hin _]%elem_of_difference. by apply Hty.
Qed.

(** Firing a list of pending timers with distinct handles. *)
Lemma fire_all_coherent ts s :
  coherent s → NoDup (handle <$> ts) → (∀ t, t ∈ ts → t ∈ pending s) →
  let s' := foldl (λ st t, fire t st) s ts in
  coherent s'
  ∧ now s' = now s
  ∧ ∀ t, t ∈ pending s' ↔ t ∈ pending s ∧ handle t ∉ handle <$> ts.
Proof.
  revert s. induction ts as [|t0 ts IH]; intros s Hs Hnd Hin; simpl.
  { split; [done|]. split; [done|]. intros t. split; [|tauto].
    intros Ht. split; [done|]. by intros ?%elem_of_nil. }
  rewrite fmap_cons in Hnd. apply NoDup_cons in Hnd as [Hfresh Hnd].
  assert (t0 ∈ pending s) as Ht0 by (apply Hin; left).
  assert (coherent (fire t0 s)) as Hs0.
  { rewrite fire_retire. apply retire_coherent; [done|].
    by apply (pending_recorded s Hs). }
  destruct (IH (fire t0 s) Hs0 Hnd) as (Hco & Hnow & Hpend).
  { intros t Ht. simpl. apply list_elem_of_filter. split; [|apply Hin; by right].
    intros Heq. apply Hfresh. rewrite <- Heq. by apply list_elem_of_fmap_2. }
  split; [done|]. split; [done|].
  intros t. rewrite Hpend. simpl. rewrite list_elem_of_filter, not_elem_of_cons.
  tauto.
Qed.

Lemma advance_coherent dt s :
  coherent s → punctual s →
  coherent (advance dt s) ∧ punctual (advance dt s)
  ∧ now (advance dt s) = (now s + dt)%N.
Proof.
  intros Hs Hp. unfold advance.
  set (s1 := mk _ _ _ _ _ _).
  assert (coherent s1) as Hs1 by (by destruct Hs).
  destruct (fire_all_coherent (filter (isDue (now s1)) (pending s1)) s1 Hs1)
    as (Hco & Hnow & Hpend).
  { apply NoDup_fmap_filter, Hs1. }
  { by intros t [_ Ht]%list_elem_of_filter. }
  split; [done|]. split; [|done].
  intros t [Ht Hnot]%Hpend. rewrite Hnow.
  destruct (decide (isDue (now s1) t)) as [Hdue|Hdue]; [|unfold isDue in Hdue; lia].
  exfalso. apply Hnot. apply list_elem_of_fmap_2. by apply list_elem_of_filter.
Qed.

Lemma clearTimeouts_pending hs s :
  let s' := foldr clearTimeout s hs in
  selectedChatId s' = selectedChatId s ∧ typingUsers s' = typingUsers s
  ∧ typingTimeoutRef s' = typingTimeoutRef s ∧ nextHandle s' = nextHandle s
  ∧ now s' = now s
  ∧ ∀ t, t ∈ pending s' ↔ t ∈ pending s ∧ handle t ∉ hs.
Proof.
  induction hs as [|h hs IH]; simpl.
  { do 5 (split; [done|]). intros t. split; [|tauto].
    intros Ht. split; [done|]. by intros ?%elem_of_nil. }
  destruct IH as (? & ? & ? & ? & ? & Hpend). do 5 (split; [done|]).
  intros t. rewrite list_elem_of_filter, Hpend, not_elem_of_cons. tauto.
Qed.

(** After the cleanup of a coherent state no timer is pending. *)
Lemma cleanup_empty s :
  coherent s →
  pending (cleanup s) = [] ∧ typingTimeoutRef (cleanup s) = ∅
  ∧ nextHandle (cleanup s) = nextHandle s ∧ now (cleanup s) = now s.
Proof.
  intros Hs. unfold cleanup.
  destruct (clearTimeouts_pending (snd <$> map_to_list (typingTimeoutRef s)) s)
    as (_ & _ & _ & Hnext & Hnow & Hpend).
  simpl. repeat split; try done.
  apply elem_of_nil_inv. intros t [Ht Hnot]%Hpend. apply Hnot.
  apply list_elem_of_fmap. exists (forUser t, handle t). split; [done|].
  apply elem_of_map_to_list. by apply (pending_recorded s Hs).
Qed.

Lemma selectChat_coherent chat s :
  coherent s → punctual s →
  coherent (selectChat chat s) ∧ punctual (selectChat chat s).
Proof.
  intros Hs Hp. unfold selectChat. case_bool_decide as Hsame.
  - split; [|done]. destruct Hs as [Hd Hpr Hrp Hlt Hty].
    split; simpl; first [done | by intros u ?%elem_of_empty].
  - destruct (cleanup_empty s Hs) as (Hpend & Href & _ & _).
    split.
    + split; cbn [pending typingTimeoutRef typingUsers nextHandle];
        rewrite ?Hpend, ?Href.
      * constructor.
      * by intros t ?%elem_of_nil.
      * intros u h. by rewrite lookup_empty.
      * by intros t ?%elem_of_nil.
      * by intros u ?%elem_of_empty.
    + intros t. cbn [pending now]. rewrite Hpend. by intros ?%elem_of_nil.
Qed.

Lemma step_coherent e s :
  coherent s → punctual s → coherent (step e s) ∧ punctual (step e s).
Proof.
  intros Hs Hp. destruct e as [event|dt|chat]; simpl.
  - by apply onTyping_coherent.
  - destruct (advance_coherent dt s Hs Hp) as (? & ? & _). done.
  - by apply selectChat_coherent.
Qed.

Lemma reachable_coherent s : reachable s → coherent s ∧ punctual s.
Proof.
  induction 1 as [|e s _ [Hs Hp]].
  - split.
    + split; simpl;
        first [ constructor | by intros t ?%elem_of_nil
              | by intros u ?%elem_of_empty | done ].
    + by intros t ?%elem_of_nil.
  - by apply step_coherent.
Qed.

Lemma retire_pending u h s t : t ∈ pending (retire u h s) → t ∈ pending s.
Proof. by intros [_ ?]%list_elem_of_filter. Qed.

Lemma arm_pending v s t :
  t ∈ pending (arm v s) → t ∈ pending s ∨ forUser t = v.
Proof. intros [?| ->%list_elem_of_singleton]%elem_of_app; [by left | by right]. Qed.

Lemma step_bounded u d e s :
  coherent s → concerns u e = false → bounded u d s → bounded u d (step e s).
Proof.
  intros Hs He Hb t. destruct e as [[chat v typing]|dt|chat]; simpl in *.
  - apply bool_decide_eq_false in He.
    destruct (decide (Some chat = selectedChatId s)) as [Hsel|Hsel].
    2:{ rewrite onTyping_ignored by done. apply Hb. }
    symmetry in Hsel. destruct typing.
    + rewrite (onTyping_start s chat v Hsel).
      destruct (typingTimeoutRef s !! v) as [h|].
      * intros [Ht%retire_pending|Hv]%arm_pending Hu; [by apply Hb | congruence].
      * intros [Ht|Hv]%arm_pending Hu; [by apply Hb | congruence].
    + rewrite (onTyping_stop s chat v Hsel).
      destruct (typingTimeoutRef s !! v) as [h|].
      * intros Ht%retire_pending. by apply Hb.
      * apply Hb.
  - unfold advance. set (s1 := mk _ _ _ _ _ _).
    assert (coherent s1) as Hs1 by (by destruct Hs).
    destruct (fire_all_coherent (filter (isDue (now s1)) (pending s1)) s1 Hs1)
      as (_ & _ & Hpend).
    { apply NoDup_fmap_filter, Hs1. }
    { by intros t' [_ Ht']%list_elem_of_filter. }
    intros [Ht _]%Hpend. by apply Hb.
  - unfold selectChat. case_bool_decide; [apply Hb|].
    destruct (cleanup_empty s Hs) as (Hpend & _).
    cbn [pending]. rewrite Hpend. by intros ?%elem_of_nil.
Qed.

Lemma run_bounded u d es s :
  coherent s → punctual s → bounded u d s →
  forallb (λ e, negb (concerns u e)) es = true →
  coherent (run es s) ∧ punctual (run es s) ∧ bounded u d (run es s).
Proof.
  unfold run. revert s. induction es as [|e es IH]; intros s Hs Hp Hb Hes; [done|].
  simpl in Hes. apply andb_true_iff in Hes as [He%negb_true_iff Hes].
  destruct (step_coherent e s Hs Hp). simpl.
  apply IH; try done. by apply step_bounded.
Qed.

(** Once the clock has reached the bound, [u] is shown no more. *)
Lemma bounded_expired u d s :
  coherent s → punctual s → bounded u d s → (d ≤ now s)%N →
  (u ∉ typingUsers s) ∧ timersOf u s = [].
Proof.
  intros Hs Hp Hb Hd.
  assert (∀ t, t ∈ pending s → forUser t ≠ u) as Hnone.
  { intros t Ht Hu. pose proof (Hb t Ht Hu). pose proof (Hp t Ht). lia. }
  split.
  - intros [h Hh]%(typing_has_timer s Hs).
    destruct (recorded_pending s Hs _ _ Hh) as (t & Ht & _ & Hu).
    by apply (Hnone t).
  - apply filter_none. intros t Ht. by apply Hnone.
Qed.

Lemma arm_timers u s :
  coherent s → typingTimeoutRef s !! u = None →
  timersOf u (arm u s)
  = [{| handle := nextHandle s; due := (now s + typingDelay)%N; forUser := u |}].
Proof.
  intros Hs Hu. unfold timersOf, arm. cbn [pending].
  rewrite filter_app, filter_none.
  - by rewrite filter_cons_True.
  - intros t Ht Heq. apply (pending_recorded s Hs) in Ht. by rewrite Heq, Hu in Ht.
Qed.

(** At most one timer is pending for a user. *)
Lemma coherent_one_timer u s : coherent s → (length (timersOf u s) ≤ 1)%nat.
Proof.
  intros Hs. unfold timersOf.
  destruct (filter _ (pending s)) as [|t1 [|t2 l]] eqn:Hf; simpl; [lia..|].
  exfalso.
  assert (t1 ∈ filter (λ t, forUser t = u) (pending s)) as H1 by (rewrite Hf; left).
  assert (t2 ∈ filter (λ t, forUser t = u) (pending s)) as H2
    by (rewrite Hf; right; left).
  apply list_elem_of_filter in H1 as [Hu1 H1], H2 as [Hu2 H2].
  assert (handle t1 = handle t2) as Hh.
  { pose proof (pending_recorded s Hs _ H1) as E1.
    pose proof (pending_recorded s Hs _ H2) as E2. congruence. }
  pose proof (NoDup_fmap_filter handle (λ t, forUser t = u) (pending s)
                (handles_distinct s Hs)) as Hnd.
  rewrite Hf, !fmap_cons in Hnd. apply NoDup_cons in Hnd as [Hnot _].
  apply Hnot. rewrite Hh. left.
Qed.

Lemma reachable_run es s : reachable s → reachable (run es s).
Proof.
  unfold run. revert s. induction es as [|e es IH]; intros s Hs; [done|].
  simpl. apply IH. by constructor.
Qed.

End TypingTimers.

(** A typing-started event of a chat that is not the open one: "c1" is
    open and "u-bob" starts typing in "c2". The handler returns at once; the
    user is not in the typing set and no timer has been started. *)
Lemma typing_signal_other_chat_example :
  let s := Typing.run [Typing.Select "c1"] Typing.initial in
  let s' :=
    Typing.onTyping {| Typing.chatId := "c2"; Typing.userId := "u-bob";
                       Typing.isTyping := true |} s in
  Typing.selectedChatId s = Some "c1"
  ∧ s' = s
  ∧ ("u-bob" ∉ Typing.typingUsers s')
  ∧ Typing.pending s' = [].
Proof.
  intros s s'.
  assert (s' = s) as Hsame by (by apply onTyping_ignored).
  split; [reflexivity|]. split; [done|]. rewrite Hsame.
  split; [|reflexivity]. change (Typing.typingUsers s) with (∅ : gset string).
  apply not_elem_of_empty.
Qed.

(** C8, as the code has it. In every state the client can reach, for the
    open chat [chat] and every user [u]. A typing-started event puts [u]
    into the typing set and leaves exactly one pending timer for [u], due
    5000 ms from now, recorded in the ref; every timer [u] had before is no
    longer pending. From there, whatever happens that is no typing event of
    [u], once the clock has passed those 5000 ms [u] is out of the typing
    set and has no timer. A typing-stopped event takes [u] out of the
    typing set at once, and leaves no timer and no ref entry for [u]. At
    all times the pending timers are the recorded ones, at most one for a
    user. A typing event of any chat but the open one changes nothing. *)
Theorem typing_signal_expiry (s : Typing.State) (chat u : string) :
  Typing.reachable s →
  Typing.selectedChatId s = Some chat →
  let started :=
    Typing.onTyping
      {| Typing.chatId := chat; Typing.userId := u; Typing.isTyping := true |} s in
  let stopped :=
    Typing.onTyping
      {| Typing.chatId := chat; Typing.userId := u; Typing.isTyping := false |} s in
  (u ∈ Typing.typingUsers started
   ∧ Typing.timersOf u started
     = [{| Typing.handle := Typing.nextHandle s;
           Typing.due := (Typing.now s + 5000)%N;
           Typing.forUser := u |}]
   ∧ Typing.typingTimeoutRef started !! u = Some (Typing.nextHandle s)
   ∧ ∀ t, t ∈ Typing.timersOf u s → t ∉ Typing.pending started)
  ∧ (∀ es, forallb (λ e, negb (Typing.concerns u e)) es = true →
       let later := Typing.run es started in
       (Typing.now s + 5000 ≤ Typing.now later)%N →
       (u ∉ Typing.typingUsers later) ∧ Typing.timersOf u later = [])
  ∧ ((u ∉ Typing.typingUsers stopped)
     ∧ Typing.timersOf u stopped = []
     ∧ Typing.typingTimeoutRef stopped !! u = None)
  ∧ (∀ t, t ∈ Typing.pending s →
          Typing.typingTimeoutRef s !! Typing.forUser t = Some (Typing.handle t))
  ∧ (∀ v, (length (Typing.timersOf v s) ≤ 1)%nat)
  ∧ (∀ event, Typing.chatId event ≠ chat → Typing.onTyping event s = s).
Proof.
  intros [Hs Hp]%reachable_coherent Hsel started stopped.
  assert (Typing.timersOf u started
          = [{| Typing.handle := Typing.nextHandle s;
                Typing.due := (Typing.now s + 5000)%N;
                Typing.forUser := u |}]) as Htimers.
  { subst started. rewrite (onTyping_start s chat u Hsel).
    destruct (Typing.typingTimeoutRef s !! u) as [h|] eqn:Hu.
    - rewrite arm_timers; [done | by apply retire_coherent |]. simpl.
      apply lookup_delete_eq.
    - by rewrite arm_timers. }
  split; [|split; [|split; [|split; [|split]]]].
  - split; [|split; [done|split]].
    + subst started. rewrite (onTyping_start s chat u Hsel).
      destruct (Typing.typingTimeoutRef s !! u); simpl;
        apply elem_of_union; right; by apply elem_of_singleton.
    + subst started. rewrite (onTyping_start s chat u Hsel).
      destruct (Typing.typingTimeoutRef s !! u); simpl; apply lookup_insert_eq.
    + intros t [Hu Ht]%list_elem_of_filter Hin.
      assert (t ∈ Typing.timersOf u started) as Hin'.
      { apply list_elem_of_filter. by split. }
      rewrite Htimers in Hin'. apply list_elem_of_singleton in Hin' as ->.
      apply (Typing.handles_below_next s Hs) in Ht. simpl in Ht. lia.
  - intros es Hes later Hlate.
    destruct (onTyping_coherent
                {| Typing.chatId := chat; Typing.userId := u; Typing.isTyping := true |}
                s Hs Hp) as [Hs1 Hp1].
    fold started in Hs1, Hp1.
    assert (Typing.bounded u (Typing.now s + 5000) started) as Hb.
    { intros t Ht Hu.
      assert (t ∈ Typing.timersOf u started) as Hin.
      { apply list_elem_of_filter. by split. }
      rewrite Htimers in Hin. apply list_elem_of_singleton in Hin as ->.
      simpl. lia. }
    destruct (run_bounded u _ es started Hs1 Hp1 Hb Hes) as (Hs2 & Hp2 & Hb2).
    by apply (bounded_expired u (Typing.now s + 5000)).
  - subst stopped. rewrite (onTyping_stop s chat u Hsel).
    destruct (Typing.typingTimeoutRef s !! u) as [h|] eqn:Hu.
    + split; [|split].
      * simpl. intros [_ Hne]%elem_of_difference. apply Hne.
        by apply elem_of_singleton.
      * apply filter_none. intros t [Hne Ht]%list_elem_of_filter Heq.
        apply (Typing.pending_recorded s Hs) in Ht. rewrite Heq, Hu in Ht.
        by injection Ht.
      * simpl. apply lookup_delete_eq.
    + split; [|split].
      * simpl. intros [_ Hne]%elem_of_difference. apply Hne.
        by apply elem_of_singleton.
      * apply filter_none. intros t Ht Heq.
        apply (Typing.pending_recorded s Hs) in Ht. by rewrite Heq, Hu in Ht.
      * done.
  - apply (Typing.pending_recorded s Hs).
  - intros v. by apply coherent_one_timer.
  - intros event Hne. apply onTyping_ignored. rewrite Hsel. congruence.
Qed.

Lemma typing_signal_expiry_witness :
  let s := Typing.run
             [Typing.Select "c1";
              Typing.Signal {| Typing.chatId := "c1"; Typing.userId := "u-bob";
                               Typing.isTyping := true |};
              Typing.Elapse 3000]
             Typing.initial in
  let started :=
    Typing.onTyping {| Typing.chatId := "c1"; Typing.userId := "u-bob";
                       Typing.isTyping := true |} s in
  Typing.timersOf "u-bob" started
  = [{| Typing.handle := 2; Typing.due := 8000; Typing.forUser := "u-bob" |}].
Proof.
  intros s started.
  refine (proj1 (proj2 (proj1 (typing_signal_expiry s "c1" "u-bob" _ _)))).
  - apply reachable_run. constructor.
  - reflexivity.
Defined.

(** ** The chat routes *)

Section ChatRoutesFacts.
Import ChatRoutes.

Lemma insertSorted_elem x y l : y ∈ insertSorted x l ↔ y = x ∨ y ∈ l.
Proof.
  induction l as [|z l IH]; simpl.
  - rewrite list_elem_of_singleton, elem_of_nil. tauto.
  - destruct (precedes x.2 z.2).
    + by rewrite elem_of_cons.
    + rewrite !elem_of_cons, IH. tauto.
Qed.

Lemma sortChats_elem y l : y ∈ sortChats l ↔ y ∈ l.
Proof.
  unfold sortChats. induction l as [|x l IH]; simpl; [done|].
  rewrite insertSorted_elem, IH, elem_of_cons. tauto.
Qed.

(** What the query of the chat list returns are documents of the
    collection the user takes part in. *)
Lemma find_result_elem userId offset limit db kc :
  kc ∈ take (Z.to_nat limit) (drop (Z.to_nat offset) (sortChats (chatsOf userId db))) →
  chats db !! kc.1 = Some kc.2 ∧ userId ∈ participants kc.2.
Proof.
  intros Hin%subseteq_take%subseteq_drop.
  apply (proj1 (sortChats_elem _ _)) in Hin. unfold chatsOf in Hin. apply list_elem_of_filter in Hin as [Hp Hin].
  split; [|done]. destruct kc. by apply elem_of_map_to_list.
Qed.

(** The counter object of the detail route holds, for each populated
    participant, what [getUnreadCount] gives. *)
Lemma detail_counters (stored : gmap string Z) (ps : list ParticipantView)
    (acc : gmap string Z) k :
  foldl (λ obj p, <[pv_id p := getUnreadCount stored (pv_id p)]> obj) acc ps !! k
  = if decide (k ∈ pv_id <$> ps) then Some (getUnreadCount stored k) else acc !! k.
Proof.
  revert acc. induction ps as [|p ps IH]; intros acc.
  { destruct (decide (k ∈ pv_id <$> [])) as [H|H]; [by apply elem_of_nil in H|done]. }
  cbn [foldl]. rewrite fmap_cons, IH. destruct (decide (k ∈ pv_id <$> ps)) as [Hin|Hin].
  - rewrite decide_True; [done|]. by right.
  - destruct (decide (k = pv_id p)) as [->|Hne].
    + rewrite lookup_insert_eq. rewrite decide_True; [done|]. by left.
    + rewrite lookup_insert_ne by done. rewrite decide_False; [done|].
      by intros [?|?]%elem_of_cons.
Qed.

(** The monad laws the routes are read with. *)
Lemma bind_pure_l {A B} (m : Handler A) (k : A → Handler B) a db :
  m db = pure a db → bind m k db = k a db.
Proof. intros Hm. unfold bind. rewrite Hm. simpl. by destruct (k a db). Qed.

Lemma bind_throw_l {A B} (m : Handler A) (k : A → Handler B) e db :
  m db = throw e db → bind m k db = throw e db.
Proof. intros Hm. unfold bind. by rewrite Hm. Qed.

Lemma bind_query_l {A B} (m : Handler A) (k : A → Handler B) a db' q db :
  m db = mkOutcome (inr a) db' q →
  bind m k db
  = mkOutcome (result (k a db')) (after (k a db')) (q ++ queries (k a db')).
Proof. intros Hm. unfold bind. by rewrite Hm. Qed.

(** The two routes on one chat, for an authenticated caller, case by case. *)
Lemma markAsRead_outcome (toObjectId : string → option string)
    chatId currentUserId caller db :
  toObjectId currentUserId = Some caller →
  markAsRead toObjectId chatId currentUserId db
  = match toObjectId chatId with
    | None => mkOutcome (inl (BadRequestError "Invalid chat ID format")) db []
    | Some id =>
        match chats db !! id with
        | None => mkOutcome (inl (NotFoundError "Chat not found")) db [FindById id]
        | Some chat =>
            if bool_decide (caller ∈ participants chat)
            then mkOutcome (inr "Chat marked as read")
                   (mkDB (alter (setUnreadZero currentUserId) id (chats db))
                      (users db))
                   [FindById id;
                    FindByIdAndUpdate id ("unreadCount." +:+ currentUserId)]
            else mkOutcome
                   (inl (ForbiddenError "You do not have access to this chat"))
                   db [FindById id]
        end
    end.
Proof.
  intros Hcaller. unfold markAsRead, ObjectId_isValid.
  rewrite (bind_pure_l _ _ caller db) by (by rewrite Hcaller).
  destruct (toObjectId chatId) as [id|].
  2:{ rewrite (bind_throw_l _ _ (BadRequestError "Invalid chat ID format") db);
        [done|].
      by rewrite bool_decide_eq_false_2 by (by intros [? ?]). }
  rewrite (bind_pure_l _ _ tt db) by (by rewrite bool_decide_eq_true_2).
  rewrite (bind_pure_l _ _ id db) by done.
  rewrite (bind_query_l _ _ (chats db !! id) db [FindById id] db) by done.
  destruct (chats db !! id) as [chat|].
  2:{ by rewrite (bind_throw_l _ _ (NotFoundError "Chat not found") db). }
  rewrite (bind_pure_l _ _ chat db) by done.
  destruct (bool_decide (caller ∈ participants chat)).
  2:{ by rewrite (bind_throw_l _ _
                   (ForbiddenError "You do not have access to this chat") db). }
  rewrite (bind_pure_l _ _ tt db) by done.
  by rewrite (bind_query_l _ _ tt
                (mkDB (alter (setUnreadZero currentUserId) id (chats db)) (users db))
                [FindByIdAndUpdate id ("unreadCount." +:+ currentUserId)] db).
Qed.

Lemma getChat_outcome (toObjectId : string → option string)
    chatId currentUserId caller db :
  toObjectId currentUserId = Some caller →
  getChat toObjectId chatId currentUserId db
  = match toObjectId chatId with
    | None => mkOutcome (inl (BadRequestError "Invalid chat ID format")) db []
    | Some id =>
        match chats db !! id with
        | None => mkOutcome (inl (NotFoundError "Chat not found")) db [FindById id]
        | Some chat =>
            if bool_decide (caller ∈ pv_id <$> populate db (participants chat))
            then match unreadCount chat with
                 | Some stored =>
                     mkOutcome
                       (inr (mkChatView id (populate db (participants chat))
                               (type chat) (lastMessage chat)
                               (foldl (λ obj p,
                                         <[pv_id p := getUnreadCount stored (pv_id p)]> obj)
                                  ∅ (populate db (participants chat)))
                               (createdAt chat) (updatedAt chat)))
                       db [FindById id]
                 | None => mkOutcome (inl InternalError) db [FindById id]
                 end
            else mkOutcome
                   (inl (ForbiddenError "You do not have access to this chat"))
                   db [FindById id]
        end
    end.
Proof.
  intros Hcaller. unfold getChat, ObjectId_isValid.
  rewrite (bind_pure_l _ _ caller db) by (by rewrite Hcaller).
  destruct (toObjectId chatId) as [id|].
  2:{ rewrite (bind_throw_l _ _ (BadRequestError "Invalid chat ID format") db);
        [done|].
      by rewrite bool_decide_eq_false_2 by (by intros [? ?]). }
  rewrite (bind_pure_l _ _ tt db) by (by rewrite bool_decide_eq_true_2).
  rewrite (bind_pure_l _ _ id db) by done.
  rewrite (bind_query_l _ _ (chats db !! id) db [FindById id] db) by done.
  destruct (chats db !! id) as [chat|].
  2:{ by rewrite (bind_throw_l _ _ (NotFoundError "Chat not found") db). }
  rewrite (bind_pure_l _ _ chat db) by done.
  destruct (bool_decide (caller ∈ pv_id <$> populate db (participants chat))).
  2:{ by rewrite (bind_throw_l _ _
                   (ForbiddenError "You do not have access to this chat") db). }
  rewrite (bind_pure_l _ _ tt db) by done.
  destruct (unreadCount chat) as [stored|].
  2:{ by rewrite (bind_throw_l _ _ InternalError db). }
  by rewrite (bind_pure_l _ _ stored db).
Qed.

(** The two query parameters of the chat list: read, or refused. *)
Lemma parseLimit_cases {QueryValue} (Number : QueryValue → JsNumber) limitRaw db :
  (∃ limit, parseLimit Number limitRaw db = pure limit db
            ∧ limitAsked Number limitRaw limit)
  ∨ (∃ message, parseLimit Number limitRaw db
                = throw (BadRequestError message) db).
Proof.
  unfold parseLimit, limitAsked. destruct limitRaw as [raw|]; [|left; eauto].
  destruct (Number raw) as [z|]; [|right; eauto].
  destruct (z <? 1)%Z eqn:H1; [right; eauto|].
  destruct (100 <? z)%Z eqn:H2; [right; eauto|]. simpl.
  left. exists z. split; [done|]. split; [done | lia].
Qed.

Lemma parseOffset_cases {QueryValue} (Number : QueryValue → JsNumber) offsetRaw db :
  (∃ offset, parseOffset Number offsetRaw db = pure offset db
             ∧ offsetAsked Number offsetRaw offset)
  ∨ (∃ message, parseOffset Number offsetRaw db
                = throw (BadRequestError message) db).
Proof.
  unfold parseOffset, offsetAsked. destruct offsetRaw as [raw|]; [|left; eauto].
  destruct (Number raw) as [z|]; [|right; eauto].
  destruct (z <? 0)%Z eqn:H1; [right; eauto|].
  left. exists z. split; [done|]. split; [done | lia].
Qed.

(** The chat list either throws, having changed and asked nothing, or
    answers from the two queries, having changed nothing. *)
Lemma getChats_cases (toObjectId : string → option string)
    {QueryValue} (Number : QueryValue → JsNumber)
    currentUserId caller limitRaw offsetRaw db :
  toObjectId currentUserId = Some caller →
  let o := getChats toObjectId Number currentUserId limitRaw offsetRaw db in
  (∃ e, o = mkOutcome (inl e) db [])
  ∨ (∃ limit offset,
       limitAsked Number limitRaw limit ∧ offsetAsked Number offsetRaw offset
       ∧ o = mkOutcome
               (inr (mkChatListResponse "Chats retrieved"
                       (length (chatsOf caller db))
                       (length (take (Z.to_nat limit)
                                  (drop (Z.to_nat offset)
                                     (sortChats (chatsOf caller db)))))
                       limit offset
                       (listView db
                          <$> take (Z.to_nat limit)
                                (drop (Z.to_nat offset)
                                   (sortChats (chatsOf caller db))))))
               db [CountDocuments caller; Find caller offset limit]).
Proof.
  intros Hcaller o. subst o. unfold getChats.
  rewrite (bind_pure_l _ _ caller db) by (by rewrite Hcaller).
  destruct (parseLimit_cases Number limitRaw db) as [(limit & Hl & Hlimit)|[m Hl]].
  2:{ rewrite (bind_throw_l _ _ _ _ Hl). left. eauto. }
  rewrite (bind_pure_l _ _ _ _ Hl).
  destruct (parseOffset_cases Number offsetRaw db) as [(offset & Hf & Hoffset)|[m Hf]].
  2:{ rewrite (bind_throw_l _ _ _ _ Hf). left. eauto. }
  rewrite (bind_pure_l _ _ _ _ Hf).
  right. exists limit, offset. split; [done|]. split; [done|].
  rewrite (bind_query_l _ _ (length (chatsOf caller db)) db [CountDocuments caller] db)
    by done.
  by rewrite (bind_query_l _ _
                (take (Z.to_nat limit)
                   (drop (Z.to_nat offset) (sortChats (chatsOf caller db))))
                db [Find caller offset limit] db).
Qed.

End ChatRoutesFacts.

(** *** Mark a chat as read *)

(** A chat id that refers to no chat, because it is no ObjectId at all, is
    answered with BadRequestError, not with NotFoundError. *)
Lemma markAsRead_malformed_id_example :
  let db := ChatRoutes.mkDB ∅ ∅ in
  let o := ChatRoutes.markAsRead ChatRoutes.hex24 "abc"
             "507f1f77bcf86cd799439011" db in
  ChatRoutes.chats db = ∅
  ∧ ChatRoutes.result o
    = inl (ChatRoutes.BadRequestError "Invalid chat ID format")
  ∧ ChatRoutes.result o ≠ inl (ChatRoutes.NotFoundError "Chat not found").
Proof. vm_compute. repeat split. discriminate. Qed.

(** C9, as the code has it. For an authenticated caller, whose id is an
    ObjectId: the operation fails with BadRequestError when the chat id is
    not a valid ObjectId, with NotFoundError when it is valid and names no
    chat, and with ForbiddenError when the caller is not a participant of
    the chat; in these three cases the database is left as it was. On
    success the update touches that one chat only: the counter stored under
    the caller's id is 0, every other counter of the chat and every other
    field of the chat is as before, and so is every other chat. *)
Theorem markAsRead_spec (toObjectId : string → option string)
    (db : ChatRoutes.DB) (chatId currentUserId caller : string) :
  toObjectId currentUserId = Some caller →
  let o := ChatRoutes.markAsRead toObjectId chatId currentUserId db in
  (toObjectId chatId = None →
     ChatRoutes.result o = inl (ChatRoutes.BadRequestError "Invalid chat ID format")
     ∧ ChatRoutes.after o = db)
  ∧ (∀ id, toObjectId chatId = Some id → ChatRoutes.chats db !! id = None →
       ChatRoutes.result o = inl (ChatRoutes.NotFoundError "Chat not found")
       ∧ ChatRoutes.after o = db)
  ∧ (∀ id chat, toObjectId chatId = Some id →
       ChatRoutes.chats db !! id = Some chat →
       caller ∉ ChatRoutes.participants chat →
       ChatRoutes.result o
       = inl (ChatRoutes.ForbiddenError "You do not have access to this chat")
       ∧ ChatRoutes.after o = db)
  ∧ (∀ id chat, toObjectId chatId = Some id →
       ChatRoutes.chats db !! id = Some chat →
       caller ∈ ChatRoutes.participants chat →
       ChatRoutes.result o = inr "Chat marked as read"
       ∧ ChatRoutes.users (ChatRoutes.after o) = ChatRoutes.users db
       ∧ (∀ other, other ≠ id →
            ChatRoutes.chats (ChatRoutes.after o) !! other
            = ChatRoutes.chats db !! other)
       ∧ ∃ chat', ChatRoutes.chats (ChatRoutes.after o) !! id = Some chat'
           ∧ ChatRoutes.participants chat' = ChatRoutes.participants chat
           ∧ ChatRoutes.type chat' = ChatRoutes.type chat
           ∧ ChatRoutes.lastMessage chat' = ChatRoutes.lastMessage chat
           ∧ ChatRoutes.createdAt chat' = ChatRoutes.createdAt chat
           ∧ ChatRoutes.updatedAt chat' = ChatRoutes.updatedAt chat
           ∧ ∀ key,
               default ∅ (ChatRoutes.unreadCount chat') !! key
               = if decide (key = currentUserId) then Some 0%Z
                 else default ∅ (ChatRoutes.unreadCount chat) !! key).
Proof.
  intros Hcaller o. subst o.
  rewrite (markAsRead_outcome toObjectId chatId currentUserId caller db Hcaller).
  split; [|split; [|split]].
  - by intros ->.
  - by intros id -> ->.
  - intros id chat -> -> Hnot. by rewrite bool_decide_eq_false_2.
  - intros id chat -> Hchat Hin. rewrite Hchat.
    rewrite bool_decide_eq_true_2 by done. simpl.
    split; [done|]. split; [done|]. split.
    + intros other Hne. by rewrite lookup_alter_ne.
    + exists (ChatRoutes.setUnreadZero currentUserId chat).
      split; [by rewrite lookup_alter_eq, Hchat|].
      do 5 (split; [done|]). intros key. simpl.
      destruct (decide (key = currentUserId)) as [->|Hne].
      * apply lookup_insert_eq.
      * by rewrite lookup_insert_ne.
Qed.

Lemma markAsRead_spec_witness :
  ChatRoutes.result
    (ChatRoutes.markAsRead ChatRoutes.hex24 Sample.idC Sample.idB Sample.db)
  = inr "Chat marked as read".
Proof.
  refine (proj1 (proj2 (proj2 (proj2
    (markAsRead_spec ChatRoutes.hex24 Sample.db Sample.idC Sample.idB Sample.idB _)))
    Sample.idC
    (ChatRoutes.mkChatDoc [Sample.idA; Sample.idB] "private" None
       (Some {[ Sample.idA := 2%Z ]}) 1000 2000) _ _ _)).
  - reflexivity.
  - reflexivity.
  - reflexivity.
  - right. left.
Defined.

(** *** The chat list *)

(** In the chat-list response a counter that is absent from the stored map
    is absent, not 0: the chat of the sample database stores a counter for
    its first participant only, and the response has none for the second. *)
Lemma getChats_absent_counter_example :
  ∃ r cv,
    ChatRoutes.result
      (ChatRoutes.getChats ChatRoutes.hex24 ChatRoutes.decimalNumber
         Sample.idB None None Sample.db) = inr r
    ∧ ChatRoutes.r_chats r = [cv]
    ∧ ChatRoutes.pv_id <$> ChatRoutes.cv_participants cv = [Sample.idA; Sample.idB]
    ∧ ChatRoutes.cv_unreadCount cv !! Sample.idB = None
    ∧ ChatRoutes.cv_unreadCount cv !! Sample.idB ≠ Some 0%Z.
Proof.
  eexists _, _. split; [vm_compute; reflexivity|].
  split; [reflexivity|]. split; [vm_compute; reflexivity|].
  split; [vm_compute; reflexivity|]. vm_compute. discriminate.
Qed.

(** C10, as the code has it. For an authenticated caller: an omitted limit
    is 50 and an omitted offset is 0, a supplied one is the integer read
    from it; a supplied limit that is not an integer from 1 to 100, and a
    supplied offset that is not a non-negative integer, fail with
    BadRequestError before any query is made. The chat-list response gives
    each chat the counter map as it is stored (the empty map when there is
    none): a counter absent from the map is absent from the response. It is
    the chat-detail response that reports, for every participant shown, the
    stored counter or 0 when the map has none. *)
Theorem getChats_spec (toObjectId : string → option string)
    {QueryValue : Type} (Number : QueryValue → ChatRoutes.JsNumber)
    (db : ChatRoutes.DB) (currentUserId caller : string)
    (limitRaw offsetRaw : option QueryValue) :
  toObjectId currentUserId = Some caller →
  let o := ChatRoutes.getChats toObjectId Number currentUserId limitRaw offsetRaw db in
  (∀ limit offset,
     ChatRoutes.limitAsked Number limitRaw limit →
     ChatRoutes.offsetAsked Number offsetRaw offset →
     ∃ r, ChatRoutes.result o = inr r
       ∧ ChatRoutes.r_limit r = limit
       ∧ ChatRoutes.r_offset r = offset
       ∧ ChatRoutes.queries o
         = [ChatRoutes.CountDocuments caller; ChatRoutes.Find caller offset limit]
       ∧ ∀ cv, cv ∈ ChatRoutes.r_chats r →
           ∃ doc, ChatRoutes.chats db !! ChatRoutes.cv_id cv = Some doc
             ∧ ∀ key, ChatRoutes.cv_unreadCount cv !! key
                      = ChatRoutes.unreadCount doc ≫= (.!! key))
  ∧ (∀ raw, limitRaw = Some raw →
       (∀ z, Number raw = ChatRoutes.JsInt z → ¬ (1 ≤ z ≤ 100)%Z) →
       ChatRoutes.result o
       = inl (ChatRoutes.BadRequestError "limit must be an integer between 1 and 100")
       ∧ ChatRoutes.queries o = [] ∧ ChatRoutes.after o = db)
  ∧ (∀ raw, offsetRaw = Some raw →
       (∀ z, Number raw = ChatRoutes.JsInt z → ¬ (0 ≤ z)%Z) →
       (∃ message, ChatRoutes.result o = inl (ChatRoutes.BadRequestError message))
       ∧ ChatRoutes.queries o = [] ∧ ChatRoutes.after o = db)
  ∧ (∀ chatId view,
       ChatRoutes.result (ChatRoutes.getChat toObjectId chatId currentUserId db)
       = inr view →
       ∃ chat stored,
         ChatRoutes.chats db !! ChatRoutes.cv_id view = Some chat
         ∧ ChatRoutes.unreadCount chat = Some stored
         ∧ ∀ p, p ∈ ChatRoutes.cv_participants view →
             ChatRoutes.cv_unreadCount view !! ChatRoutes.pv_id p
             = Some (default 0%Z (stored !! ChatRoutes.pv_id p))).
Proof.
  intros Hcaller o.
  assert (∀ raw, limitRaw = Some raw →
            (∀ z, Number raw = ChatRoutes.JsInt z → ¬ (1 ≤ z ≤ 100)%Z) →
            ChatRoutes.parseLimit Number limitRaw db
            = ChatRoutes.throw
                (ChatRoutes.BadRequestError "limit must be an integer between 1 and 100")
                db) as Hbadlimit.
  { intros raw -> Hbad. unfold ChatRoutes.parseLimit.
    destruct (Number raw) as [z|] eqn:Hz; [|done].
    destruct (z <? 1)%Z eqn:H1; [done|]. destruct (100 <? z)%Z eqn:H2; [done|].
    exfalso. apply (Hbad z eq_refl). lia. }
  assert (∀ limit, ChatRoutes.limitAsked Number limitRaw limit →
            ChatRoutes.parseLimit Number limitRaw db = ChatRoutes.pure limit db)
    as Hgoodlimit.
  { intros limit Hl. unfold ChatRoutes.parseLimit, ChatRoutes.limitAsked in *.
    destruct limitRaw as [raw|]; [|by subst].
    destruct Hl as [-> Hl].
    destruct (limit <? 1)%Z eqn:H1; [lia|]. destruct (100 <? limit)%Z eqn:H2; [lia|].
    done. }
  assert (∀ raw, offsetRaw = Some raw →
            (∀ z, Number raw = ChatRoutes.JsInt z → ¬ (0 ≤ z)%Z) →
            ChatRoutes.parseOffset Number offsetRaw db
            = ChatRoutes.throw
                (ChatRoutes.BadRequestError "offset must be a non-negative integer")
                db) as Hbadoffset.
  { intros raw -> Hbad. unfold ChatRoutes.parseOffset.
    destruct (Number raw) as [z|] eqn:Hz; [|done].
    destruct (z <? 0)%Z eqn:H1; [done|].
    exfalso. apply (Hbad z eq_refl). lia. }
  assert (∀ offset, ChatRoutes.offsetAsked Number offsetRaw offset →
            ChatRoutes.parseOffset Number offsetRaw db = ChatRoutes.pure offset db)
    as Hgoodoffset.
  { intros offset Hf. unfold ChatRoutes.parseOffset, ChatRoutes.offsetAsked in *.
    destruct offsetRaw as [raw|]; [|by subst].
    destruct Hf as [-> Hf]. destruct (offset <? 0)%Z eqn:H1; [lia|]. done. }
  assert (ChatRoutes.check (toObjectId currentUserId) ChatRoutes.InternalError db
          = ChatRoutes.pure caller db) as Hauth by (by rewrite Hcaller).
  split; [|split; [|split]].
  - intros limit offset Hl Hf. subst o. unfold ChatRoutes.getChats.
    rewrite (bind_pure_l _ _ _ _ Hauth).
    rewrite (bind_pure_l _ _ _ _ (Hgoodlimit limit Hl)).
    rewrite (bind_pure_l _ _ _ _ (Hgoodoffset offset Hf)).
    unfold ChatRoutes.bind, ChatRoutes.countDocuments, ChatRoutes.find,
      ChatRoutes.pure.
    cbn [ChatRoutes.result ChatRoutes.after ChatRoutes.queries app].
    eexists. split; [reflexivity|].
    split; [reflexivity|]. split; [reflexivity|]. split; [reflexivity|].
    intros cv Hcv. cbn in Hcv.
    apply list_elem_of_fmap in Hcv as (kc & -> & Hkc).
    apply find_result_elem in Hkc as [Hdoc _].
    exists kc.2. split; [done|]. intros key. simpl.
    by destruct (ChatRoutes.unreadCount kc.2).
  - intros raw Hraw Hbad. subst o. unfold ChatRoutes.getChats.
    rewrite (bind_pure_l _ _ _ _ Hauth).
    by rewrite (bind_throw_l _ _ _ _ (Hbadlimit raw Hraw Hbad)).
  - intros raw Hraw Hbad. subst o. unfold ChatRoutes.getChats.
    rewrite (bind_pure_l _ _ _ _ Hauth).
    assert ((∃ limit, ChatRoutes.parseLimit Number limitRaw db
                      = ChatRoutes.pure limit db)
            ∨ (∃ message, ChatRoutes.parseLimit Number limitRaw db
                          = ChatRoutes.throw (ChatRoutes.BadRequestError message) db))
      as [[limit Hlim]|[message Hlim]].
    { unfold ChatRoutes.parseLimit. destruct limitRaw as [rawl|]; [|eauto].
      destruct (Number rawl) as [z|]; [|eauto].
      destruct ((z <? 1)%Z || (100 <? z)%Z); eauto. }
    + rewrite (bind_pure_l _ _ _ _ Hlim).
      rewrite (bind_throw_l _ _ _ _ (Hbadoffset raw Hraw Hbad)). cbn. eauto.
    + rewrite (bind_throw_l _ _ _ _ Hlim). cbn. eauto.
  - intros chatId view.
    rewrite (getChat_outcome toObjectId chatId currentUserId caller db Hcaller).
    destruct (toObjectId chatId) as [id|]; [|done].
    destruct (ChatRoutes.chats db !! id) as [chat|] eqn:Hchat; [|done].
    case_bool_decide as Hpart; [|done].
    destruct (ChatRoutes.unreadCount chat) as [stored|] eqn:Hstored; [|done].
    simpl. intros [= <-]. simpl.
    exists chat, stored. split; [done|]. split; [done|].
    intros p Hp. rewrite detail_counters.
    rewrite decide_True by (by apply list_elem_of_fmap_2). done.
Qed.

Lemma getChats_spec_witness :
  ∃ r, ChatRoutes.result
         (ChatRoutes.getChats ChatRoutes.hex24 ChatRoutes.decimalNumber
            Sample.idA None (Some "20") Sample.db) = inr r
       ∧ ChatRoutes.r_limit r = 50%Z
       ∧ ChatRoutes.r_offset r = 20%Z.
Proof.
  destruct (proj1 (getChats_spec ChatRoutes.hex24 ChatRoutes.decimalNumber
                     Sample.db Sample.idA Sample.idA None (Some "20") eq_refl)
              50%Z 20%Z) as (r & Hr & Hl & Hf & _).
  - reflexivity.
  - split; [reflexivity | lia].
  - exists r. by repeat split.
Defined.

(** * Further properties of the client *)

(** ** The message list under deletes, edits and sends *)

Section MessageListMore.
Implicit Types (l prev : list Message.t) (m : Message.t) (i : string).

(** A map that keeps ids keeps the list of ids. *)
Lemma map_id_ids i (f : Message.t → Message.t) l :
  (∀ m, Message.id (f m) = Message.id m) →
  Message.ids (Message.map_id i f l) = Message.ids l.
Proof.
  intros Hf. unfold Message.ids, Message.map_id.
  rewrite <- list_fmap_compose. apply list_fmap_ext. intros k m _. simpl.
  by case_bool_decide.
Qed.

(** Removing an id does not see what a map that keeps ids did before. *)
Lemma remove_id_map_id i (f : Message.t → Message.t) l :
  (∀ m, Message.id (f m) = Message.id m) →
  Message.remove_id i (Message.map_id i f l) = Message.remove_id i l.
Proof.
  intros Hf. unfold Message.remove_id, Message.map_id.
  induction l as [|m l IH]; [done|]. rewrite fmap_cons.
  case_bool_decide as Hm.
  - rewrite !filter_cons_False; [done | by intros ? | rewrite Hf; by intros ?].
  - rewrite !filter_cons_True by done. by rewrite IH.
Qed.

Lemma remove_id_idemp i l :
  Message.remove_id i (Message.remove_id i l) = Message.remove_id i l.
Proof. apply remove_id_absent, remove_id_ids. Qed.

Lemma map_id_remove_id i (f : Message.t → Message.t) l :
  Message.map_id i f (Message.remove_id i l) = Message.remove_id i l.
Proof. apply map_id_absent, remove_id_ids. Qed.

End MessageListMore.

(** X1. With a chat selected and a user logged in, a delete that succeeds
    leaves the list without the messages of that id, all others as they
    were and in order; a delete that fails leaves every message in place,
    the ones with that id differing from before in nothing but the
    being-deleted flag, which is [false]. Without a selected chat or without
    a user nothing happens. *)
Theorem handleDeleteMessage_outcomes (selectedChatId : option string)
    (user : User) (messageId : string) (prev : list Message.t) :
  MainChat.truthy selectedChatId = true →
  MainChat.handleDeleteMessage selectedChatId (Some user) messageId (Resolved tt) prev
  = Message.remove_id messageId prev
  ∧ (let failed :=
       MainChat.handleDeleteMessage selectedChatId (Some user) messageId Rejected prev in
     Message.ids failed = Message.ids prev
     ∧ ∀ k m, prev !! k = Some m →
         ∃ m', failed !! k = Some m'
           ∧ (Message.id m ≠ messageId → m' = m)
           ∧ (Message.id m = messageId → m' = Message.with_isDeleting m false))
  ∧ (∀ res, MainChat.handleDeleteMessage None (Some user) messageId res prev = prev)
  ∧ (∀ res, MainChat.handleDeleteMessage selectedChatId None messageId res prev = prev).
Proof.
  intros Hsel. unfold MainChat.handleDeleteMessage. rewrite Hsel. simpl.
  split; [|split; [|split]]; try done.
  - unfold MainChat.delete_then, MainChat.delete_optimistic.
    by apply remove_id_map_id.
  - unfold MainChat.delete_catch, MainChat.delete_optimistic. split.
    + by rewrite !map_id_ids.
    + intros k m Hk. rewrite !map_id_lookup, Hk. simpl.
      destruct (decide (Message.id m = messageId)) as [Hm|Hm].
      * rewrite (bool_decide_eq_true_2 (Message.id m = messageId)) by done.
        rewrite bool_decide_eq_true_2 by done. eexists. by repeat split.
      * rewrite (bool_decide_eq_false_2 (Message.id m = messageId)) by done.
        rewrite bool_decide_eq_false_2 by done. exists m. by repeat split.
Qed.

Lemma handleDeleteMessage_outcomes_witness :
  let prev := [Sample.text "m0" "c1" Sample.alice "hi";
               Sample.text "m1" "c1" Sample.alice "there"] in
  MainChat.handleDeleteMessage (Some "c1") (Some Sample.alice) "m1" (Resolved tt) prev
  = Message.remove_id "m1" prev.
Proof.
  intros prev.
  refine (proj1 (handleDeleteMessage_outcomes (Some "c1") Sample.alice "m1" prev _)).
  reflexivity.
Defined.

(** X2. A delete and the message-deleted event the server sends for it end
    in the same list whichever comes first, and whether or not the request
    itself succeeds: the messages of that id are gone and nothing else has
    changed. The four orders are: the event, then the response; the event,
    then the failure and its rollback; the response, then the event; the
    failure and its rollback, then the event. *)
Theorem delete_and_socket_echo (chatId messageId : string)
    (prev : list Message.t) :
  chatId ≠ "" →
  let echo := {| MessageWindow.del_chatId := chatId;
                 MessageWindow.del_messageId := messageId |} in
  let flagged := MainChat.delete_optimistic messageId prev in
  MainChat.delete_then messageId (MessageWindow.onMessageDeleted chatId echo flagged)
  = Message.remove_id messageId prev
  ∧ MainChat.delete_catch messageId (MessageWindow.onMessageDeleted chatId echo flagged)
    = Message.remove_id messageId prev
  ∧ MessageWindow.onMessageDeleted chatId echo (MainChat.delete_then messageId flagged)
    = Message.remove_id messageId prev
  ∧ MessageWindow.onMessageDeleted chatId echo (MainChat.delete_catch messageId flagged)
    = Message.remove_id messageId prev.
Proof.
  intros Hchat echo flagged.
  assert (∀ l, MessageWindow.onMessageDeleted chatId echo l
               = Message.remove_id messageId l) as Hecho.
  { intros l. unfold MessageWindow.onMessageDeleted, MessageWindow.subscribed.
    rewrite bool_decide_eq_false_2 by done. simpl.
    by rewrite bool_decide_eq_true_2. }
  assert (Message.remove_id messageId flagged = Message.remove_id messageId prev)
    as Hflag by (by apply remove_id_map_id).
  rewrite !Hecho. unfold MainChat.delete_then, MainChat.delete_catch.
  rewrite !remove_id_idemp, map_id_remove_id, Hflag.
  do 3 (split; [done|]). by rewrite remove_id_map_id.
Qed.

Lemma delete_and_socket_echo_witness :
  let prev := [Sample.text "m0" "c1" Sample.alice "hi";
               Sample.text "m1" "c1" Sample.alice "there"] in
  MainChat.delete_catch "m1"
    (MessageWindow.onMessageDeleted "c1"
       {| MessageWindow.del_chatId := "c1"; MessageWindow.del_messageId := "m1" |}
       (MainChat.delete_optimistic "m1" prev))
  = Message.remove_id "m1" prev.
Proof.
  intros prev.
  refine (proj1 (proj2 (delete_and_socket_echo "c1" "m1" prev _))).
  discriminate.
Defined.

(** X3. The message-created event of one's own send races with the
    response of the send. When the response comes first, the event finds
    the server id in the list and adds nothing: the list is the old one
    followed by the sent message. When the event comes first, it is appended
    beside the temporary record, and the response then turns the temporary
    record into a second message with the same server id. *)
Theorem send_and_socket_echo (chatId : string) (user : User) (content : string)
    (now : N) (nowISO laterISO : string) (data echo : MessageResponse.t)
    (prev : list Message.t) :
  chatId ≠ "" →
  MessageResponse.chatId echo = chatId →
  MessageResponse.id echo = MessageResponse.id data →
  MainChat.tempId now ∉ Message.ids prev →
  MessageResponse.id data ∉ Message.ids prev →
  MessageResponse.id data ≠ MainChat.tempId now →
  let tid := MainChat.tempId now in
  let appended :=
    MainChat.send_optimistic
      (MainChat.tempMessage chatId user content now nowISO) prev in
  let sent := MainChat.sentMessage user data laterISO in
  MessageWindow.onNewMessage chatId echo
    (MainChat.send_then tid user data laterISO appended)
  = prev ++ [sent]
  ∧ (let raced :=
       MainChat.send_then tid user data laterISO
         (MessageWindow.onNewMessage chatId echo appended) in
     raced = prev ++ [sent; MessageWindow.messageWithSender echo]
     ∧ Message.id sent = Message.id (MessageWindow.messageWithSender echo)
     ∧ ¬ NoDup (Message.ids raced)).
Proof.
  intros Hchat Hecho Hid Htmp Hsid Hne tid appended sent.
  assert (MessageWindow.subscribed chatId = true) as Hsub.
  { unfold MessageWindow.subscribed. by rewrite bool_decide_eq_false_2. }
  assert (tid ∉ Message.ids (prev ++ [])) as Hnil by (by rewrite app_nil_r).
  assert (MainChat.send_then tid user data laterISO appended = prev ++ [sent])
    as Hthen.
  { apply (send_settle_at tid user data laterISO prev []); [done | done]. }
  split.
  - rewrite Hthen. unfold MessageWindow.onNewMessage.
    rewrite Hsub, bool_decide_eq_true_2 by done. simpl.
    replace (Message.some_id (MessageResponse.id echo) (prev ++ [sent])) with true;
      [done|].
    symmetry. apply some_id_elem. rewrite ids_app. apply elem_of_app. right.
    rewrite Hid. by left.
  - assert (MessageWindow.onNewMessage chatId echo appended
            = appended ++ [MessageWindow.messageWithSender echo]) as Hnew.
    { unfold MessageWindow.onNewMessage.
      rewrite Hsub, bool_decide_eq_true_2 by done. simpl.
      replace (Message.some_id (MessageResponse.id echo) appended) with false;
        [done|].
      symmetry. apply some_id_false. unfold appended, MainChat.send_optimistic.
      rewrite ids_app, Hid. intros [?|Hin]%elem_of_app; [done|].
      apply list_elem_of_singleton in Hin. done. }
    assert (MainChat.send_then tid user data laterISO
              (MessageWindow.onNewMessage chatId echo appended)
            = prev ++ [sent; MessageWindow.messageWithSender echo]) as Hraced.
    { rewrite Hnew. unfold appended, MainChat.send_optimistic.
      rewrite <- app_assoc. simpl.
      apply (send_settle_at tid user data laterISO prev
               [MessageWindow.messageWithSender echo]); [done|].
      rewrite ids_app. intros [?|Hin]%elem_of_app; [done|].
      apply list_elem_of_singleton in Hin. simpl in Hin. rewrite Hid in Hin.
      by apply Hne. }
    intros raced. subst raced. rewrite Hraced. split; [done|].
    split; [simpl; by rewrite Hid|].
    rewrite ids_app. intros [_ [_ Hnd]]%NoDup_app.
    change (Message.ids [sent; MessageWindow.messageWithSender echo])
      with [MessageResponse.id data; MessageResponse.id echo] in Hnd.
    apply NoDup_cons in Hnd as [Hnot _]. apply Hnot. rewrite Hid. by left.
Qed.

Lemma send_and_socket_echo_witness :
  let prev := [Sample.text "m0" "c1" Sample.bob "hi"] in
  let data := Sample.served "m7" "c1" Sample.alice "hello" in
  MessageWindow.onNewMessage "c1" data
    (MainChat.send_then (MainChat.tempId 1705314600000) Sample.alice data
       "2024-01-15T10:30:02.000Z"
       (MainChat.send_optimistic
          (MainChat.tempMessage "c1" Sample.alice "hello" 1705314600000
             "2024-01-15T10:30:00.000Z") prev))
  = prev ++ [MainChat.sentMessage Sample.alice data "2024-01-15T10:30:02.000Z"].
Proof.
  intros prev data.
  refine (proj1 (send_and_socket_echo "c1" Sample.alice "hello" 1705314600000
    "2024-01-15T10:30:00.000Z" "2024-01-15T10:30:02.000Z" data data prev
    _ _ _ _ _ _)).
  - discriminate.
  - reflexivity.
  - reflexivity.
  - vm_compute. intros H.
    repeat (inversion H as [|? ? ? H']; clear H; rename H' into H).
  - vm_compute. intros H.
    repeat (inversion H as [|? ? ? H']; clear H; rename H' into H).
  - vm_compute. discriminate.
Defined.

(** X4. The optimistic updates that only mark or rewrite a message (the
    edit, the being-deleted flag and its rollback, the end of the entry
    animation) and the message-edited event never add, drop or reorder
    messages: the list of ids afterwards is the list of ids before. *)
Theorem updates_keep_ids (messageId content nowISO chatId : string)
    (data : MessageWindow.MessageEdited) (prev : list Message.t) :
  Message.ids (MainChat.edit_optimistic messageId content nowISO prev)
  = Message.ids prev
  ∧ Message.ids (MainChat.delete_optimistic messageId prev) = Message.ids prev
  ∧ Message.ids (MainChat.delete_catch messageId prev) = Message.ids prev
  ∧ Message.ids (MainChat.send_clear_isNew messageId prev) = Message.ids prev
  ∧ Message.ids (MessageWindow.onMessageEdited chatId data prev) = Message.ids prev.
Proof.
  repeat split; try by apply map_id_ids.
  unfold MessageWindow.onMessageEdited.
  destruct (negb _); [done|]. case_bool_decide; [|done]. by apply map_id_ids.
Qed.

(** ** The chat list *)

Section ChatListMore.
Implicit Types (c chat : Chat.t) (l prev : list Chat.t) (cid uid : string).

Lemma findIndex_None cid l :
  ChatList.findIndex cid l = None → Chat.find cid l = None.
Proof.
  unfold ChatList.findIndex.
  destruct (list_find _ l) as [[k c]|] eqn:Hfind; [done|]. intros _.
  apply list_find_None in Hfind.
  induction l as [|x l IH]; [done|]. apply Forall_cons in Hfind as [Hx Hl].
  rewrite find_cons, bool_decide_eq_false_2 by done. by apply IH.
Qed.

Lemma findIndex_head cid c l :
  Chat.id c = cid → ChatList.findIndex cid (c :: l) = Some 0.
Proof.
  intros Hc. unfold ChatList.findIndex. simpl. by rewrite decide_True.
Qed.

Lemma find_None_ids cid l c :
  Chat.find cid l = None → c ∈ l → Chat.id c ≠ cid.
Proof.
  induction l as [|x l IH]; [by intros _ ?%elem_of_nil|].
  rewrite find_cons. case_bool_decide as Hx; [done|].
  intros Hl [->|Hin]%elem_of_cons; [done|]. by apply IH.
Qed.

(** The shape of the list after the move. *)
Lemma moveToFront_found target c l :
  Chat.find target l = Some c →
  ∃ rest, ChatList.moveToFront target l = c :: rest
          ∧ rest `sublist_of` l ∧ l ≡ₚ c :: rest.
Proof.
  intros Hc. unfold ChatList.moveToFront.
  destruct (ChatList.findIndex target l) as [k|] eqn:Hidx.
  2:{ apply findIndex_None in Hidx. congruence. }
  apply findIndex_find in Hidx as (c' & Hk & _ & Hfind).
  assert (c' = c) as -> by congruence.
  destruct k as [|k].
  - destruct l as [|x l]; [done|]. simpl in Hk. injection Hk as ->.
    exists l. split; [done|]. split; [by apply sublist_cons | done].
  - rewrite Hk. exists (delete (S k) l). split; [done|].
    split; [apply sublist_delete | by apply delete_Permutation].
Qed.

Lemma moveToFront_absent target l :
  Chat.find target l = None → ChatList.moveToFront target l = l.
Proof.
  intros Hnone. unfold ChatList.moveToFront.
  destruct (ChatList.findIndex target l) as [k|] eqn:Hidx; [|done].
  apply findIndex_find in Hidx as (c & _ & _ & Hfind). congruence.
Qed.

Lemma moveToFront_perm target l : ChatList.moveToFront target l ≡ₚ l.
Proof.
  destruct (Chat.find target l) as [c|] eqn:Hc.
  - destruct (moveToFront_found target c l Hc) as (rest & -> & _ & Hperm). done.
  - by rewrite moveToFront_absent.
Qed.

Lemma unread_unreadCount c c' uid :
  Chat.unreadCount c' = Chat.unreadCount c → Chat.unread c' uid = Chat.unread c uid.
Proof. unfold Chat.unread. by intros ->. Qed.

End ChatListMore.

(** X5. Moving the chat of a new message to the front only reorders the
    list: the result is a permutation of the list; the first chat with that
    id, if there is one, comes first and the others follow in their old
    order; a list without such a chat is left as it is; and moving twice is
    moving once. *)
Theorem moveToFront_reorders (target : string) (prev : list Chat.t) :
  ChatList.moveToFront target prev ≡ₚ prev
  ∧ (∀ c, Chat.find target prev = Some c →
       ∃ rest, ChatList.moveToFront target prev = c :: rest
               ∧ rest `sublist_of` prev)
  ∧ (Chat.find target prev = None → ChatList.moveToFront target prev = prev)
  ∧ ChatList.moveToFront target (ChatList.moveToFront target prev)
    = ChatList.moveToFront target prev.
Proof.
  destruct (Chat.find target prev) as [c|] eqn:Hc.
  - destruct (moveToFront_found target c prev Hc) as (rest & Hmove & Hsub & Hperm).
    split; [by rewrite Hmove|]. split; [|split; [done|]].
    + intros c' [= <-]. eauto.
    + rewrite Hmove. unfold ChatList.moveToFront.
      rewrite findIndex_head; [done|]. by apply find_elem in Hc as [_ ?].
  - assert (ChatList.moveToFront target prev = prev) as Hsame
      by (by apply moveToFront_absent).
    rewrite !Hsame. by repeat split.
Qed.

(** X6. A new message reaches the chat list: if the chat of the message is
    in the list, it comes first afterwards and shows the message as its
    last one (content, sender, timestamp), while every other chat is in the
    list unchanged; if it is not, the list is as before. No chat is added
    or lost. *)
Theorem chat_list_on_new_message (user : User) (selectedChatId : option string)
    (message : MessageResponse.t) (prev : list Chat.t) :
  let next := ChatList.onNewMessage user selectedChatId message prev in
  length next = length prev
  ∧ (∀ c, Chat.find (MessageResponse.chatId message) prev = Some c →
       ∃ c', head next = Some c'
         ∧ Chat.id c' = Chat.id c
         ∧ Chat.lastMessage c'
           = Some {| Chat.lm_content := MessageResponse.content message;
                     Chat.lm_senderId := MessageResponse.senderId message;
                     Chat.lm_timestamp := MessageResponse.timestamp message |})
  ∧ (∀ c, c ∈ prev → Chat.id c ≠ MessageResponse.chatId message → c ∈ next)
  ∧ (Chat.find (MessageResponse.chatId message) prev = None → next = prev).
Proof.
  intros next. subst next. unfold ChatList.onNewMessage.
  set (bumped := ChatList.bump user selectedChatId message <$> prev).
  pose proof (moveToFront_perm (MessageResponse.chatId message) bumped) as Hperm.
  assert (∀ c, Chat.id c ≠ MessageResponse.chatId message →
               ChatList.bump user selectedChatId message c = c) as Hother.
  { intros c Hne. unfold ChatList.bump. by rewrite bool_decide_eq_false_2. }
  split; [|split; [|split]].
  - rewrite Hperm. apply length_fmap.
  - intros c Hc.
    assert (Chat.find (MessageResponse.chatId message) bumped
            = Some (ChatList.bump user selectedChatId message c)) as Hb.
    { unfold bumped. rewrite find_fmap by (intros; apply bump_id). by rewrite Hc. }
    destruct (moveToFront_found _ _ _ Hb) as (rest & -> & _).
    eexists. split; [done|]. split; [apply bump_id|].
    apply find_elem in Hc as [_ Hid]. unfold ChatList.bump.
    by rewrite bool_decide_eq_true_2.
  - intros c Hin Hne. rewrite Hperm. unfold bumped.
    apply list_elem_of_fmap. exists c. by rewrite Hother.
  - intros Hnone.
    assert (bumped = prev) as ->.
    { unfold bumped. rewrite <- (list_fmap_id prev) at 2.
      apply list_fmap_ext. intros k c Hk. apply Hother.
      eapply find_None_ids; [done|]. by eapply list_elem_of_lookup_2. }
    by apply moveToFront_absent.
Qed.

(** X7. Marking a chat as read on the client sets the current user's
    counter of that chat to 0 and touches no other counter of any chat; the
    list keeps its chats and their order, non-negative counters stay
    non-negative, and doing it twice is doing it once. The counter map the
    client then holds is the one the server's update stores. *)
Theorem markedAsRead_resets (user : User) (chatId : string) (prev : list Chat.t) :
  let next := ChatList.markedAsRead user chatId prev in
  Chat.id <$> next = Chat.id <$> prev
  ∧ (∀ cid c, Chat.find cid prev = Some c →
       ∃ c', Chat.find cid next = Some c'
         ∧ (∀ uid, Chat.unread c' uid
                   = if decide (cid = chatId ∧ uid = user_id user) then 0%Z
                     else Chat.unread c uid)
         ∧ (cid = chatId →
            ∀ doc, ChatRoutes.unreadCount doc = Chat.unreadCount c →
                   Chat.unreadCount c'
                   = ChatRoutes.unreadCount
                       (ChatRoutes.setUnreadZero (user_id user) doc)))
  ∧ (Chat.counters_nonneg prev → Chat.counters_nonneg next)
  ∧ ChatList.markedAsRead user chatId next = next.
Proof.
  intros next. subst next. unfold ChatList.markedAsRead.
  set (g := λ c : Chat.t, if bool_decide (Chat.id c = chatId) then _ else c).
  assert (∀ c, Chat.id (g c) = Chat.id c) as Hid.
  { intros c. unfold g. by case_bool_decide. }
  split; [|split; [|split]].
  - rewrite <- list_fmap_compose. apply list_fmap_ext. intros k c _. apply Hid.
  - intros cid c Hc. rewrite find_fmap by done. rewrite Hc. simpl.
    eexists. split; [done|]. apply find_elem in Hc as [_ Hc]. unfold g.
    split.
    + intros uid. case_bool_decide as Hchat.
      * unfold Chat.unread at 1. simpl.
        destruct (decide (uid = user_id user)) as [->|Hu].
        -- rewrite lookup_insert_eq. simpl. rewrite decide_True; [done|].
           split; congruence.
        -- rewrite lookup_insert_ne by done. rewrite decide_False by tauto.
           unfold Chat.unread. destruct (Chat.unreadCount c); simpl; [done|].
           by rewrite lookup_empty.
      * rewrite decide_False; [done|]. intros [? _]. congruence.
    + intros -> doc Hdoc. rewrite bool_decide_eq_true_2 by done. simpl.
      by rewrite Hdoc.
  - intros Hnn c' m u n (c & -> & Hin)%list_elem_of_fmap. unfold g.
    case_bool_decide; [|by apply Hnn]. simpl. intros [= <-].
    destruct (decide (u = user_id user)) as [->|Hu].
    + rewrite lookup_insert_eq. by intros [= <-].
    + rewrite lookup_insert_ne by done.
      destruct (Chat.unreadCount c) as [m0|] eqn:Hm0; simpl.
      * by apply (Hnn c m0).
      * by rewrite lookup_empty.
  - rewrite <- list_fmap_compose. apply list_fmap_ext. intros k c _. simpl.
    unfold g at 1. rewrite Hid. unfold g. case_bool_decide; [|done]. simpl.
    by rewrite insert_insert_eq.
Qed.

(** X8. Sending a message never changes an unread counter on the
    sender's own client: neither the update of the chat list when the send
    succeeds nor the message-created event of that message, whatever chat
    is selected when it arrives, changes the counter of any user in any
    chat. *)
Theorem own_send_keeps_counters (user : User) (chatId : string)
    (selectedLater : option string) (data echo : MessageResponse.t)
    (prev : list Chat.t) :
  MessageResponse.senderId echo = user_id user →
  let sent := MainChatEffects.sentLastMessage chatId user data prev in
  let next := ChatList.onNewMessage user selectedLater echo sent in
  (Chat.id <$> sent = Chat.id <$> prev)
  ∧ ∀ cid c, Chat.find cid prev = Some c →
      ∃ c1 c2, Chat.find cid sent = Some c1 ∧ Chat.find cid next = Some c2
        ∧ ∀ uid, Chat.unread c1 uid = Chat.unread c uid
                 ∧ Chat.unread c2 uid = Chat.unread c uid.
Proof.
  intros Hown sent next. subst sent next.
  unfold MainChatEffects.sentLastMessage, ChatList.onNewMessage.
  set (g := λ chat : Chat.t, if bool_decide (Chat.id chat = chatId) then _ else chat).
  assert (∀ c, Chat.id (g c) = Chat.id c) as Hid.
  { intros c. unfold g. by case_bool_decide. }
  assert (∀ c uid, Chat.unread (g c) uid = Chat.unread c uid) as Hg.
  { intros c uid. apply unread_unreadCount. unfold g. by case_bool_decide. }
  split.
  - rewrite <- list_fmap_compose. apply list_fmap_ext. intros k c _. apply Hid.
  - intros cid c Hc. exists (g c), (ChatList.bump user selectedLater echo (g c)).
    split; [by rewrite find_fmap, Hc|]. split.
    + rewrite moveToFront_find, find_fmap by (intros; apply bump_id).
      by rewrite find_fmap, Hc.
    + intros uid. split; [apply Hg|]. rewrite bump_unread, Hg.
      rewrite decide_False; [lia|]. intros (_ & _ & Hne & _). done.
Qed.

Lemma own_send_keeps_counters_witness :
  let prev := [Sample.chat "c1" (Some {["u-bob" := 3%Z]}); Sample.chat "c2" None] in
  let data := Sample.served "m7" "c2" Sample.alice "hello" in
  Chat.id <$> MainChatEffects.sentLastMessage "c2" Sample.alice data prev
  = Chat.id <$> prev.
Proof.
  intros prev data.
  refine (proj1 (own_send_keeps_counters Sample.alice "c2" (Some "c1") data data
                   prev _)).
  reflexivity.
Defined.

(** ** Presence *)

(** X9. A status event is handled by two subscriptions, the one of the chat
    page and the one of the message window; together they do what one does.
    Afterwards the user of the event is in the online set exactly when the
    status is 'online', and nobody else has entered or left it. *)
Theorem status_event_once (chatId : string)
    (status : MainChatEffects.UserStatus) (prev : gset string) :
  let next := MainChatEffects.statusEvent chatId status prev in
  next = MainChatEffects.onUserStatus status prev
  ∧ (MainChatEffects.status_userId status ∈ next
     ↔ MainChatEffects.status_status status = "online")
  ∧ (∀ u, u ≠ MainChatEffects.status_userId status → u ∈ next ↔ u ∈ prev).
Proof.
  intros next.
  assert (∀ s, MainChatEffects.onUserStatus status
                 (MainChatEffects.onUserStatus status s)
               = MainChatEffects.onUserStatus status s) as Hidem.
  { intros s. unfold MainChatEffects.onUserStatus. case_bool_decide.
    - apply set_eq. intros x. rewrite !elem_of_union. tauto.
    - apply set_eq. intros x. rewrite !elem_of_difference. tauto. }
  assert (next = MainChatEffects.onUserStatus status prev) as ->.
  { subst next. unfold MainChatEffects.statusEvent,
      MainChatEffects.MessageWindow_onUserStatus.
    destruct (negb (MessageWindow.subscribed chatId)); [done|]. simpl.
    apply Hidem. }
  split; [done|]. unfold MainChatEffects.onUserStatus.
  case_bool_decide as Hon; split.
  - split; [done|]. intros _. apply elem_of_union. right. by apply elem_of_singleton.
  - intros u Hu. rewrite elem_of_union, elem_of_singleton. tauto.
  - split; [|done]. intros [_ Hnot]%elem_of_difference.
    exfalso. apply Hnot. by apply elem_of_singleton.
  - intros u Hu. rewrite elem_of_difference, elem_of_singleton. tauto.
Qed.

(** ** The edit form *)

(** X10. The edit action is offered only for one's own message with a
    timestamp that reads as a date less than 15 minutes before now: at
    exactly 15 minutes it is gone. The window only closes: a message that
    cannot be edited now cannot be edited at any later time, whatever the
    clock of the message says. *)
Theorem canEdit_window (getTime : string → option Z) (isMine : bool)
    (message : Message.t) (now : Z) :
  (MessageItem.canEdit getTime isMine message now = true
   ↔ isMine = true
     ∧ Message.timestamp message ≠ ""
     ∧ ∃ sentAt, getTime (Message.timestamp message) = Some sentAt
                 ∧ (now < sentAt + 900000)%Z)
  ∧ (∀ later, (now ≤ later)%Z →
       MessageItem.canEdit getTime isMine message now = false →
       MessageItem.canEdit getTime isMine message later = false)
  ∧ (∀ sentAt, getTime (Message.timestamp message) = Some sentAt →
       MessageItem.canEdit getTime isMine message (sentAt + 900000) = false).
Proof.
  unfold MessageItem.canEdit, MessageItem.fifteenMinutes.
  split; [|split].
  - destruct isMine; simpl; [|split; [done | by intros [? _]]].
    case_bool_decide as Hts; [split; [done | by intros (_ & ? & _)]|].
    destruct (getTime (Message.timestamp message)) as [t|].
    + rewrite Z.ltb_lt. split.
      * intros Hlt. repeat split; try done. exists t. split; [done | lia].
      * intros (_ & _ & t' & [= <-] & Hlt). lia.
    + split; [done|]. by intros (_ & _ & t' & ? & _).
  - intros later Hle. destruct (negb isMine || _); [done|].
    destruct (getTime (Message.timestamp message)) as [t|]; [|done].
    rewrite !Z.ltb_ge. lia.
  - intros sentAt ->. destruct (negb isMine || _); [done|].
    apply Z.ltb_ge. lia.
Qed.

(** X11. Edit mode is entered only through [handleEditStart] on a message
    that can be edited and has text, and then the edit buffer holds the
    text of the message. Saving right away, or after changes that trimming
    undoes, makes no call at all and just closes the form; Escape closes it
    and puts the text of the message back into the buffer. *)
Theorem edit_start_save_cancel (getTime : string → option Z)
    (trim : string → string) (isMine hasHandler : bool) (message : Message.t)
    (now : Z) (s : MessageItem.State) :
  MessageItem.isEditing s = false →
  let started := MessageItem.handleEditStart getTime isMine message now s in
  (MessageItem.isEditing started = true
   ↔ MessageItem.canEdit getTime isMine message now = true
     ∧ MessageItem.hasContent message = true)
  ∧ (MessageItem.isEditing started = true →
       MessageItem.editContent started = MessageItem.contentOr message
       ∧ MessageItem.showMenu started = false)
  ∧ (∀ typed : MessageItem.State,
       trim (MessageItem.editContent typed) = trim (MessageItem.contentOr message) →
       MessageItem.handleEditSave_call trim hasHandler message typed = None
       ∧ MessageItem.isEditing
           (MessageItem.handleEditSave_begin trim hasHandler message typed) = false
       ∧ MessageItem.editLoading
           (MessageItem.handleEditSave_begin trim hasHandler message typed)
         = MessageItem.editLoading typed)
  ∧ (∀ typed : MessageItem.State,
       let cancelled :=
         MessageItem.handleKeyDown trim hasHandler message "Escape" false typed in
       MessageItem.isEditing cancelled = false
       ∧ MessageItem.editContent cancelled = MessageItem.contentOr message
       ∧ MessageItem.handleKeyDown_call trim hasHandler message "Escape" false typed
         = None).
Proof.
  intros Hoff started. subst started. unfold MessageItem.handleEditStart.
  split; [|split; [|split]].
  - destruct (MessageItem.canEdit _ _ _ _), (MessageItem.hasContent message);
      simpl; rewrite ?Hoff; split; (done || by intros [? ?]).
  - destruct (negb _ || negb _); simpl; [by rewrite Hoff|done].
  - intros typed Hsame.
    assert (MessageItem.saveSkipped trim hasHandler message typed = true) as Hskip.
    { unfold MessageItem.saveSkipped, MessageItem.unchanged.
      rewrite (bool_decide_eq_true_2 _ Hsame). by rewrite orb_true_r. }
    unfold MessageItem.handleEditSave_call, MessageItem.handleEditSave_begin.
    by rewrite Hskip.
  - intros typed. done.
Qed.

Lemma edit_start_save_cancel_witness :
  let message := Sample.text "m1" "c1" Sample.alice "hello" in
  MessageItem.handleEditSave_call (λ x, x) true message
    (MessageItem.handleEditStart (λ _, Some 1000%Z) true message 2000
       (MessageItem.initial message))
  = None.
Proof.
  intros message.
  refine (proj1 (proj1 (proj2 (proj2
    (edit_start_save_cancel (λ _, Some 1000%Z) (λ x, x) true true message 2000
       (MessageItem.initial message) _))) _ _)).
  - reflexivity.
  - reflexivity.
Defined.



(** X13. The edit form cannot tell a failed edit from a successful one.
    [handleEditMessage] catches the rejection of the API call itself, so
    the promise the form awaits resolves either way: after a failed call
    the user has got the error toast of the chat page followed by the
    success toast of the form, the form is closed with its buffer as typed,
    and the list holds the new content. *)
Theorem edit_failure_reports_success (trim : string → string) (user : User)
    (message : Message.t) (nowISO : string) (item : MessageItem.State)
    (messages : list Message.t) :
  MessageItem.hasContent message = true →
  trim (MessageItem.editContent item) ≠ trim (MessageItem.contentOr message) →
  let failed := EditFlow.save trim (Some user) message nowISO Rejected item messages in
  let passed := EditFlow.save trim (Some user) message nowISO (Resolved tt) item messages in
  failed.2
  = [("error", "Не удалось отредактировать сообщение");
     ("success", "Сообщение отредактировано")]
  ∧ passed.2 = [("success", "Сообщение отредактировано")]
  ∧ failed.1.1 = passed.1.1
  ∧ MessageItem.isEditing failed.1.1 = false
  ∧ MessageItem.editLoading failed.1.1 = false
  ∧ MessageItem.editContent failed.1.1 = MessageItem.editContent item
  ∧ failed.1.2 = passed.1.2
  ∧ failed.1.2
    = MainChat.edit_optimistic (Message.id message)
        (trim (MessageItem.editContent item)) nowISO messages.
Proof.
  intros Hcontent Hchanged failed passed. subst failed passed.
  unfold EditFlow.save, MessageItem.handleEditSave_call,
    MessageItem.handleEditSave_begin, MessageItem.saveSkipped,
    MessageItem.unchanged.
  rewrite Hcontent, bool_decide_eq_false_2 by done. simpl. by repeat split.
Qed.

Lemma edit_failure_reports_success_witness :
  let message := Sample.text "m1" "c1" Sample.alice "old" in
  (EditFlow.save (λ x, x) (Some Sample.alice) message "2024-01-15T10:31:00.000Z"
     Rejected (MessageItem.mkState false false true "new" false) [message]).2
  = [("error", "Не удалось отредактировать сообщение");
     ("success", "Сообщение отредактировано")].
Proof.
  intros message.
  refine (proj1 (edit_failure_reports_success (λ x, x) Sample.alice message
    "2024-01-15T10:31:00.000Z" (MessageItem.mkState false false true "new" false)
    [message] _ _)).
  - reflexivity.
  - discriminate.
Defined.

(** ** Typing indicators, further *)

Section TypingMore.
Import Typing.
Implicit Types (s : State) (t : Timer) (u v : string) (h : positive).

Lemma filter_ext_elem {A} (P Q : A → Prop) `{∀ x, Decision (P x)}
    `{∀ x, Decision (Q x)} (l : list A) :
  (∀ x, x ∈ l → P x ↔ Q x) → filter P l = filter Q l.
Proof.
  induction l as [|a l IH]; [done|]. intros Hl.
  assert (filter P l = filter Q l) as Hrec.
  { apply IH. intros x Hx. apply Hl. by right. }
  destruct (decide (P a)) as [Ha|Ha].
  - rewrite !filter_cons_True; [by rewrite Hrec | by apply Hl; [left|] | done].
  - rewrite !filter_cons_False; [done | | done].
    intros Hq. apply Ha. by apply Hl; [left|].
Qed.

(** The timer recorded for another user is not one of [u]'s. *)
Lemma recorded_handle_other s u v h t :
  coherent s → typingTimeoutRef s !! v = Some h → v ≠ u →
  t ∈ pending s → forUser t = u → handle t ≠ h.
Proof.
  intros Hs Hv Hne Ht Hu Hh.
  apply (pending_recorded s Hs) in Ht. rewrite Hu, Hh in Ht.
  destruct (recorded_pending s Hs _ _ Hv) as (t1 & Ht1 & Hh1 & Hu1).
  destruct (recorded_pending s Hs _ _ Ht) as (t2 & Ht2 & Hh2 & Hu2).
  assert (t1 = t2) by (apply (coherent_handle_inj s); congruence).
  congruence.
Qed.

Lemma retire_other s u v h :
  coherent s → typingTimeoutRef s !! v = Some h → v ≠ u →
  timersOf u (retire v h s) = timersOf u s
  ∧ (u ∈ typingUsers (retire v h s) ↔ u ∈ typingUsers s).
Proof.
  intros Hs Hv Hne. split.
  - unfold timersOf, retire. cbn [pending].
    rewrite list_filter_filter. apply filter_ext_elem. intros t Ht.
    split; [by intros [? _] | intros Hu; split; [done|]].
    by eapply recorded_handle_other.
  - simpl. rewrite elem_of_difference, elem_of_singleton.
    split; [by intros [? _] | intros Hin; split; [done | congruence]].
Qed.

Lemma arm_other s u v :
  v ≠ u →
  timersOf u (arm v s) = timersOf u s
  ∧ (u ∈ typingUsers (arm v s) ↔ u ∈ typingUsers s).
Proof.
  intros Hne. split.
  - unfold timersOf, arm. cbn [pending]. rewrite filter_app.
    rewrite (filter_cons_False _ _ []) by (simpl; congruence).
    by rewrite filter_nil, app_nil_r.
  - simpl. rewrite elem_of_union, elem_of_singleton.
    split; [intros [?|?]; [done | congruence] | by left].
Qed.

(** A typing event of another user does not touch the timers of [u] nor
    its place in the typing set. *)
Lemma onTyping_other s u event :
  coherent s → userId event ≠ u →
  timersOf u (onTyping event s) = timersOf u s
  ∧ (u ∈ typingUsers (onTyping event s) ↔ u ∈ typingUsers s).
Proof.
  intros Hs Hne. destruct event as [chat v typing]. simpl in Hne.
  destruct (decide (Some chat = selectedChatId s)) as [Hsel|Hsel].
  2:{ by rewrite onTyping_ignored. }
  symmetry in Hsel. destruct typing.
  - rewrite (onTyping_start s chat v Hsel).
    destruct (typingTimeoutRef s !! v) as [h|] eqn:Hv.
    + destruct (arm_other (retire v h s) u v Hne) as [-> ->].
      by apply retire_other.
    + by apply arm_other.
  - rewrite (onTyping_stop s chat v Hsel).
    destruct (typingTimeoutRef s !! v) as [h|] eqn:Hv.
    + by apply retire_other.
    + split; [done|]. simpl. rewrite elem_of_difference, elem_of_singleton.
      split; [by intros [? _] | intros Hin; split; [done | congruence]].
Qed.

(** Firing timers of other users keeps [u] in the typing set. *)
Lemma fire_all_keeps u ts s :
  u ∈ typingUsers s → (∀ t, t ∈ ts → forUser t ≠ u) →
  u ∈ typingUsers (foldl (λ st t, fire t st) s ts).
Proof.
  revert s. induction ts as [|t0 ts IH]; intros s Hu Hts; [done|].
  simpl. apply IH.
  - simpl. apply elem_of_difference. split; [done|].
    rewrite elem_of_singleton. apply not_eq_sym, Hts. by left.
  - intros t Ht. apply Hts. by right.
Qed.

Lemma step_now_mono e s :
  coherent s → punctual s → (now s ≤ now (step e s))%N.
Proof.
  intros Hs Hp. destruct e as [[chat v typing]|dt|chat]; simpl.
  - destruct (decide (Some chat = selectedChatId s)) as [Hsel|Hsel].
    2:{ by rewrite onTyping_ignored. }
    symmetry in Hsel. destruct typing.
    + rewrite (onTyping_start s chat v Hsel).
      by destruct (typingTimeoutRef s !! v).
    + rewrite (onTyping_stop s chat v Hsel).
      by destruct (typingTimeoutRef s !! v).
  - destruct (advance_coherent dt s Hs Hp) as (_ & _ & ->). lia.
  - unfold selectChat. case_bool_decide; [done|]. cbn [now].
    destruct (cleanup_empty s Hs) as (_ & _ & _ & ->). done.
Qed.

Lemma step_shownUntil u d e s :
  coherent s → punctual s → TypingEvents.leavesAlone u e = true →
  TypingEvents.shownUntil u d s → TypingEvents.shownUntil u d (step e s).
Proof.
  intros Hs Hp He Hshown Hlt.
  pose proof (step_now_mono e s Hs Hp) as Hmono.
  destruct Hshown as (Hu & t & Ht & Htu & Htd); [lia|].
  destruct e as [event|dt|chat]; simpl in *; [| |done].
  - apply negb_true_iff, bool_decide_eq_false in He.
    destruct (onTyping_other s u event Hs He) as [Htimers Hmem].
    split; [by apply Hmem|]. exists t.
    assert (t ∈ timersOf u (onTyping event s)) as Hin.
    { rewrite Htimers. apply list_elem_of_filter. by split. }
    apply list_elem_of_filter in Hin as [_ Hin]. done.
  - destruct (advance_coherent dt s Hs Hp) as (_ & _ & Hnow).
    rewrite Hnow in Hlt. unfold advance in *.
    set (s1 := mk _ _ _ _ _ _) in *.
    assert (coherent s1) as Hs1 by (by destruct Hs).
    assert (∀ t', t' ∈ filter (isDue (now s1)) (pending s1) → forUser t' ≠ u)
      as Hothers.
    { intros t' [Hdue Ht']%list_elem_of_filter Hu'.
      assert (t' = t) as ->.
      { apply (coherent_handle_inj s _ _ Hs); try done.
        pose proof (pending_recorded s Hs _ Ht') as E1.
        pose proof (pending_recorded s Hs _ Ht) as E2. congruence. }
      unfold isDue in Hdue. simpl in Hdue. lia. }
    destruct (fire_all_coherent (filter (isDue (now s1)) (pending s1)) s1 Hs1)
      as (_ & _ & Hpend).
    { apply NoDup_fmap_filter, Hs1. }
    { by intros t' [_ Ht']%list_elem_of_filter. }
    split; [by apply fire_all_keeps|].
    exists t. split; [|done]. apply Hpend. split; [done|].
    intros (t' & Hh & Hin)%list_elem_of_fmap.
    assert (t' = t) as ->.
    { apply list_elem_of_filter in Hin as [_ Hin].
      by apply (coherent_handle_inj s _ _ Hs). }
    by apply (Hothers t).
Qed.

Lemma run_shownUntil u d es s :
  coherent s → punctual s → TypingEvents.shownUntil u d s →
  forallb (TypingEvents.leavesAlone u) es = true →
  TypingEvents.shownUntil u d (run es s).
Proof.
  unfold run. revert s. induction es as [|e es IH]; intros s Hs Hp Hshown Hes;
    [done|].
  simpl in Hes. apply andb_true_iff in Hes as [He Hes].
  destruct (step_coherent e s Hs Hp). simpl.
  apply IH; try done. by apply step_shownUntil.
Qed.

Lemma run_coherent es s :
  coherent s → punctual s → coherent (run es s) ∧ punctual (run es s).
Proof.
  unfold run. revert s. induction es as [|e es IH]; intros s Hs Hp; [done|].
  simpl. destruct (step_coherent e s Hs Hp). by apply IH.
Qed.

Lemma advance_pending dt s t :
  coherent s → t ∈ pending (advance dt s) → t ∈ pending s.
Proof.
  intros Hs. unfold advance. set (s1 := mk _ _ _ _ _ _).
  assert (coherent s1) as Hs1 by (by destruct Hs).
  destruct (fire_all_coherent (filter (isDue (now s1)) (pending s1)) s1 Hs1)
    as (_ & _ & Hpend).
  { apply NoDup_fmap_filter, Hs1. }
  { by intros t0 [_ Ht0]%list_elem_of_filter. }
  by intros [Ht _]%Hpend.
Qed.

(** No event that leaves [u] alone gives [u] a timer it did not have. *)
Lemma run_timers_sub u es s t :
  coherent s → punctual s →
  forallb (TypingEvents.leavesAlone u) es = true →
  t ∈ timersOf u (run es s) → t ∈ timersOf u s.
Proof.
  unfold run. revert s. induction es as [|e es IH]; intros s Hs Hp Hes Ht; [done|].
  simpl in Hes. apply andb_true_iff in Hes as [He Hes].
  destruct (step_coherent e s Hs Hp). simpl in Ht.
  apply IH in Ht; try done.
  destruct e as [event|dt|chat]; simpl in *; [| |done].
  - apply negb_true_iff, bool_decide_eq_false in He.
    destruct (onTyping_other s u event Hs He) as [Heq _]. by rewrite <- Heq.
  - apply list_elem_of_filter in Ht as [Hu Ht]. apply list_elem_of_filter.
    split; [done|]. by eapply advance_pending.
Qed.

End TypingMore.

(** X14. Selecting a chat empties the typing set. When the selection
    really changes, the cleanup of the socket effect also cancels every
    pending expiry timer and empties the ref, so no timer of the chat that
    was open survives the switch; selecting the chat that is already open
    leaves timers and ref as they are. *)
Theorem chat_switch_clears_typing (s : Typing.State) (chat : string) :
  Typing.reachable s →
  let s' := Typing.selectChat chat s in
  Typing.selectedChatId s' = Some chat
  ∧ Typing.typingUsers s' = ∅
  ∧ (Typing.selectedChatId s ≠ Some chat →
       Typing.pending s' = [] ∧ Typing.typingTimeoutRef s' = ∅)
  ∧ (Typing.selectedChatId s = Some chat →
       Typing.pending s' = Typing.pending s
       ∧ Typing.typingTimeoutRef s' = Typing.typingTimeoutRef s).
Proof.
  intros [Hs _]%reachable_coherent s'. subst s'. unfold Typing.selectChat.
  split; [done|]. split; [done|]. split.
  - intros Hne. rewrite bool_decide_eq_false_2 by done.
    cbn [Typing.pending Typing.typingTimeoutRef].
    by destruct (cleanup_empty s Hs) as (-> & -> & _).
  - intros Heq. by rewrite bool_decide_eq_true_2.
Qed.

Lemma chat_switch_clears_typing_witness :
  let s := Typing.run
             [Typing.Select "c1";
              Typing.Signal {| Typing.chatId := "c1"; Typing.userId := "u-bob";
                               Typing.isTyping := true |}]
             Typing.initial in
  Typing.typingUsers (Typing.selectChat "c2" s) = ∅.
Proof.
  intros s.
  refine (proj1 (proj2 (chat_switch_clears_typing s "c2" _))).
  apply reachable_run. constructor.
Defined.

(** X15. Typing events are kept apart by user: in every state the client
    can reach, a typing-started or typing-stopped event of one user, of
    whatever chat, neither cancels nor starts a timer of another user and
    does not change whether that other user is shown as typing. *)
Theorem typing_users_independent (s : Typing.State) (u : string)
    (event : Typing.TypingEvent) :
  Typing.reachable s →
  Typing.userId event ≠ u →
  Typing.timersOf u (Typing.onTyping event s) = Typing.timersOf u s
  ∧ (u ∈ Typing.typingUsers (Typing.onTyping event s) ↔ u ∈ Typing.typingUsers s).
Proof. intros [Hs _]%reachable_coherent Hne. by apply onTyping_other. Qed.

Lemma typing_users_independent_witness :
  let s := Typing.run
             [Typing.Select "c1";
              Typing.Signal {| Typing.chatId := "c1"; Typing.userId := "u-bob";
                               Typing.isTyping := true |}]
             Typing.initial in
  let event := {| Typing.chatId := "c1"; Typing.userId := "u-carol";
                  Typing.isTyping := true |} in
  Typing.timersOf "u-bob" (Typing.onTyping event s) = Typing.timersOf "u-bob" s.
Proof.
  intros s event.
  refine (proj1 (typing_users_independent s "u-bob" event _ _)).
  - apply reachable_run. constructor.
  - discriminate.
Defined.

(** X16. The indicator is not taken away early. After a typing-started
    event of [u] in the open chat, as long as only time passes and other
    users type, [u] stays in the typing set, with its timer pending, at
    every moment before the 5000 ms are over. *)
Theorem typing_shown_until_expiry (s : Typing.State) (chat u : string)
    (es : list Typing.Event) :
  Typing.reachable s →
  Typing.selectedChatId s = Some chat →
  forallb (TypingEvents.leavesAlone u) es = true →
  let started :=
    Typing.onTyping
      {| Typing.chatId := chat; Typing.userId := u; Typing.isTyping := true |} s in
  let later := Typing.run es started in
  (Typing.now later < Typing.now s + 5000)%N →
  u ∈ Typing.typingUsers later
  ∧ Typing.timersOf u later
    = [{| Typing.handle := Typing.nextHandle s;
          Typing.due := (Typing.now s + 5000)%N;
          Typing.forUser := u |}].
Proof.
  intros [Hs Hp]%reachable_coherent Hsel Hes started later Hlt.
  set (timer := {| Typing.handle := Typing.nextHandle s;
                   Typing.due := (Typing.now s + 5000)%N;
                   Typing.forUser := u |}).
  destruct (onTyping_coherent
              {| Typing.chatId := chat; Typing.userId := u; Typing.isTyping := true |}
              s Hs Hp) as [Hs1 Hp1].
  fold started in Hs1, Hp1.
  assert (Typing.timersOf u started = [timer] ∧ u ∈ Typing.typingUsers started)
    as [Htimers Hin].
  { subst started. rewrite (onTyping_start s chat u Hsel).
    destruct (Typing.typingTimeoutRef s !! u) as [h|] eqn:Hu.
    - split.
      + rewrite arm_timers; [done | by apply retire_coherent |]. simpl.
        apply lookup_delete_eq.
      + simpl. apply elem_of_union. right. by apply elem_of_singleton.
    - split; [by rewrite arm_timers|].
      simpl. apply elem_of_union. right. by apply elem_of_singleton. }
  assert (TypingEvents.shownUntil u (Typing.now s + 5000) started) as Hshown.
  { intros _. split; [done|]. exists timer.
    assert (timer ∈ Typing.timersOf u started) as Ht by (rewrite Htimers; left).
    apply list_elem_of_filter in Ht as [_ Ht]. done. }
  pose proof (run_shownUntil u _ es started Hs1 Hp1 Hshown Hes) as Hlater.
  fold later in Hlater. destruct (Hlater Hlt) as (Hu & t & Ht & Htu & Htd).
  split; [done|].
  assert (Typing.coherent later) as Hs2.
  { by apply run_coherent. }
  assert (t ∈ Typing.timersOf u later) as Hmem.
  { apply list_elem_of_filter. by split. }
  assert (t = timer) as ->.
  { apply (run_timers_sub u es started) in Hmem; try done.
    rewrite Htimers in Hmem. by apply list_elem_of_singleton in Hmem. }
  pose proof (coherent_one_timer u later Hs2) as Hone.
  destruct (Typing.timersOf u later) as [|t1 [|t2 l]] eqn:Hl; simpl in Hone;
    [by apply elem_of_nil in Hmem | | lia].
  by apply list_elem_of_singleton in Hmem as <-.
Qed.

Lemma typing_shown_until_expiry_witness :
  let s := Typing.run [Typing.Select "c1"] Typing.initial in
  let started :=
    Typing.onTyping {| Typing.chatId := "c1"; Typing.userId := "u-bob";
                       Typing.isTyping := true |} s in
  "u-bob" ∈ Typing.typingUsers (Typing.run [Typing.Elapse 4999] started).
Proof.
  intros s started.
  refine (proj1 (typing_shown_until_expiry s "c1" "u-bob" [Typing.Elapse 4999]
                   _ _ _ _)).
  - apply reachable_run. constructor.
  - reflexivity.
  - reflexivity.
  - vm_compute. reflexivity.
Defined.

(** ** The chat routes, further *)

Section ChatRoutesMore.
Import ChatRoutes.

Lemma insertSorted_perm x l : insertSorted x l ≡ₚ x :: l.
Proof.
  induction l as [|y l IH]; simpl; [done|].
  destruct (precedes x.2 y.2); [done|]. rewrite IH. apply Permutation_swap.
Qed.

Lemma sortChats_perm l : sortChats l ≡ₚ l.
Proof.
  unfold sortChats. induction l as [|x l IH]; simpl; [done|].
  by rewrite insertSorted_perm, IH.
Qed.

(** The ids of what the query returns are distinct. *)
Lemma find_result_NoDup userId offset limit db :
  NoDup (fst <$> take (Z.to_nat limit)
                   (drop (Z.to_nat offset) (sortChats (chatsOf userId db)))).
Proof.
  eapply sublist_NoDup.
  2:{ apply fmap_sublist. etrans; [apply sublist_take | apply sublist_drop]. }
  rewrite sortChats_perm. unfold chatsOf.
  eapply sublist_NoDup; [|apply fmap_sublist, sublist_filter].
  apply NoDup_fst_map_to_list.
Qed.


(** A participant with a user document is among the populated ones. *)
Lemma populate_ids db ids i :
  i ∈ pv_id <$> populate db ids ↔ i ∈ ids ∧ is_Some (users db !! i).
Proof.
  unfold populate. rewrite list_elem_of_fmap. split.
  - intros (p & -> & Hp). apply list_elem_of_omap in Hp as (j & Hj & Hp).
    destruct (users db !! j) as [u|] eqn:Hu; [|done]. simpl in Hp.
    injection Hp as <-. simpl. split; [done|]. by rewrite Hu.
  - intros [Hin [u Hu]]. eexists. split; [|apply list_elem_of_omap].
    2:{ exists i. split; [done|]. by rewrite Hu. }
    done.
Qed.

Lemma setUnreadZero_idemp key chat :
  setUnreadZero key (setUnreadZero key chat) = setUnreadZero key chat.
Proof. unfold setUnreadZero. simpl. by rewrite insert_insert_eq. Qed.

End ChatRoutesMore.

(** X17. The chat list shows a caller only chats the caller takes part
    in, each at most once, and never more than the limit asked for; the
    count it reports is the number of chats it returns and does not exceed
    the total; an offset at or beyond the total gives an empty page. In all
    cases, errors included, the database is left unchanged. *)
Theorem getChats_page (toObjectId : string → option string)
    {QueryValue : Type} (Number : QueryValue → ChatRoutes.JsNumber)
    (db : ChatRoutes.DB) (currentUserId caller : string)
    (limitRaw offsetRaw : option QueryValue) :
  toObjectId currentUserId = Some caller →
  let o := ChatRoutes.getChats toObjectId Number currentUserId limitRaw offsetRaw db in
  ChatRoutes.after o = db
  ∧ ∀ r, ChatRoutes.result o = inr r →
      ChatRoutes.r_count r = length (ChatRoutes.r_chats r)
      ∧ (Z.of_nat (ChatRoutes.r_count r) ≤ ChatRoutes.r_limit r ≤ 100)%Z
      ∧ (ChatRoutes.r_count r ≤ ChatRoutes.r_total r)%nat
      ∧ NoDup (ChatRoutes.cv_id <$> ChatRoutes.r_chats r)
      ∧ (∀ cv, cv ∈ ChatRoutes.r_chats r →
           ∃ doc, ChatRoutes.chats db !! ChatRoutes.cv_id cv = Some doc
                  ∧ caller ∈ ChatRoutes.participants doc)
      ∧ ((Z.of_nat (ChatRoutes.r_total r) ≤ ChatRoutes.r_offset r)%Z →
           ChatRoutes.r_chats r = []).
Proof.
  intros Hcaller o.
  destruct (getChats_cases toObjectId Number currentUserId caller limitRaw
              offsetRaw db Hcaller) as [[e Ho]|(limit & offset & Hl & Hf & Ho)];
    fold o in Ho; rewrite Ho; simpl; [done|].
  split; [done|]. intros r [= <-]. simpl.
  assert (1 ≤ limit ≤ 100)%Z as Hlimit.
  { unfold ChatRoutes.limitAsked in Hl. destruct limitRaw; [tauto | lia]. }
  assert (0 ≤ offset)%Z as Hoffset.
  { unfold ChatRoutes.offsetAsked in Hf. destruct offsetRaw; [tauto | lia]. }
  assert (length (ChatRoutes.sortChats (ChatRoutes.chatsOf caller db))
          = length (ChatRoutes.chatsOf caller db)) as Hlen
    by (by rewrite sortChats_perm).
  split; [by rewrite length_fmap|]. split; [|split; [|split; [|split]]].
  - rewrite length_take. lia.
  - rewrite length_take, length_drop. lia.
  - rewrite <- list_fmap_compose. apply find_result_NoDup.
  - intros cv (kc & -> & Hkc)%list_elem_of_fmap.
    apply find_result_elem in Hkc as [Hdoc Hpart]. exists kc.2. by split.
  - intros Hbeyond. rewrite drop_ge; [by rewrite take_nil | lia].
Qed.

Lemma getChats_page_witness :
  ChatRoutes.after
    (ChatRoutes.getChats ChatRoutes.hex24 ChatRoutes.decimalNumber Sample.idA
       (Some "10") (Some "abc") Sample.db)
  = Sample.db.
Proof.
  refine (proj1 (getChats_page ChatRoutes.hex24 ChatRoutes.decimalNumber Sample.db
                   Sample.idA Sample.idA (Some "10") (Some "abc") _)).
  reflexivity.
Defined.

(** X18. The chat-detail route, for an authenticated caller, changes
    nothing in the database whatever it answers. It fails with
    BadRequestError on a chat id that is no ObjectId, with NotFoundError on
    one that names no chat, and with ForbiddenError for a caller who is not
    among the participants of the chat. When it answers, the chat is the
    one asked for, the caller is one of the participants shown, and the
    counter object has an entry for exactly the participants shown. *)
Theorem getChat_answers (toObjectId : string → option string)
    (db : ChatRoutes.DB) (chatId currentUserId caller : string) :
  toObjectId currentUserId = Some caller →
  let o := ChatRoutes.getChat toObjectId chatId currentUserId db in
  ChatRoutes.after o = db
  ∧ (toObjectId chatId = None →
       ChatRoutes.result o = inl (ChatRoutes.BadRequestError "Invalid chat ID format"))
  ∧ (∀ id, toObjectId chatId = Some id → ChatRoutes.chats db !! id = None →
       ChatRoutes.result o = inl (ChatRoutes.NotFoundError "Chat not found"))
  ∧ (∀ id chat, toObjectId chatId = Some id →
       ChatRoutes.chats db !! id = Some chat →
       caller ∉ ChatRoutes.participants chat →
       ChatRoutes.result o
       = inl (ChatRoutes.ForbiddenError "You do not have access to this chat"))
  ∧ (∀ view, ChatRoutes.result o = inr view →
       toObjectId chatId = Some (ChatRoutes.cv_id view)
       ∧ is_Some (ChatRoutes.chats db !! ChatRoutes.cv_id view)
       ∧ caller ∈ ChatRoutes.pv_id <$> ChatRoutes.cv_participants view
       ∧ ∀ key, is_Some (ChatRoutes.cv_unreadCount view !! key)
                ↔ key ∈ ChatRoutes.pv_id <$> ChatRoutes.cv_participants view).
Proof.
  intros Hcaller o. subst o.
  rewrite (getChat_outcome toObjectId chatId currentUserId caller db Hcaller).
  split; [|split; [|split; [|split]]].
  - destruct (toObjectId chatId) as [id|]; [|done].
    destruct (ChatRoutes.chats db !! id) as [chat|]; [|done].
    case_bool_decide; [|done]. by destruct (ChatRoutes.unreadCount chat).
  - by intros ->.
  - by intros id -> ->.
  - intros id chat -> -> Hnot. rewrite bool_decide_eq_false_2; [done|].
    by intros [? _]%populate_ids.
  - intros view. destruct (toObjectId chatId) as [id|]; [|done].
    destruct (ChatRoutes.chats db !! id) as [chat|] eqn:Hchat; [|done].
    case_bool_decide as Hpart; [|done].
    destruct (ChatRoutes.unreadCount chat) as [stored|]; [|done].
    simpl. intros [= <-]. simpl. split; [done|]. split; [by rewrite Hchat|].
    split; [done|]. intros key. rewrite detail_counters.
    destruct (decide (key ∈ _)) as [Hk|Hk]; [done|].
    rewrite lookup_empty. split; [by intros [? ?] | done].
Qed.

Lemma getChat_answers_witness :
  ChatRoutes.result (ChatRoutes.getChat ChatRoutes.hex24 "abc" Sample.idA Sample.db)
  = inl (ChatRoutes.BadRequestError "Invalid chat ID format").
Proof.
  refine (proj1 (proj2 (getChat_answers ChatRoutes.hex24 Sample.db "abc" Sample.idA
                          Sample.idA _)) _).
  - reflexivity.
  - reflexivity.
Defined.

(** X19. Marking a chat as read can be repeated without effect, and what
    it stores is what the two reading routes then report: for a caller
    whose id is in canonical form and who takes part in the chat, a second
    call leaves the database as the first left it, the chat-detail route
    (the caller having a user document) reports 0 for the caller, and
    every chat-list entry of that chat carries 0 under the caller's id. *)
Theorem markAsRead_then_read (toObjectId : string → option string)
    {QueryValue : Type} (Number : QueryValue → ChatRoutes.JsNumber)
    (db : ChatRoutes.DB) (chatId currentUserId id : string)
    (chat : ChatRoutes.ChatDoc) :
  toObjectId currentUserId = Some currentUserId →
  toObjectId chatId = Some id →
  ChatRoutes.chats db !! id = Some chat →
  currentUserId ∈ ChatRoutes.participants chat →
  let db' := ChatRoutes.after (ChatRoutes.markAsRead toObjectId chatId currentUserId db) in
  ChatRoutes.after (ChatRoutes.markAsRead toObjectId chatId currentUserId db') = db'
  ∧ (is_Some (ChatRoutes.users db !! currentUserId) →
       ∃ view, ChatRoutes.result (ChatRoutes.getChat toObjectId chatId currentUserId db')
               = inr view
               ∧ ChatRoutes.cv_unreadCount view !! currentUserId = Some 0%Z)
  ∧ (∀ limitRaw offsetRaw r cv,
       ChatRoutes.result
         (ChatRoutes.getChats toObjectId Number currentUserId limitRaw offsetRaw db')
       = inr r →
       cv ∈ ChatRoutes.r_chats r → ChatRoutes.cv_id cv = id →
       ChatRoutes.cv_unreadCount cv !! currentUserId = Some 0%Z).
Proof.
  intros Hcaller Hid Hchat Hpart db'.
  assert (∀ d c, ChatRoutes.chats d !! id = Some c →
                 currentUserId ∈ ChatRoutes.participants c →
                 ChatRoutes.after (ChatRoutes.markAsRead toObjectId chatId currentUserId d)
                 = ChatRoutes.mkDB
                     (<[id := ChatRoutes.setUnreadZero currentUserId c]>
                        (ChatRoutes.chats d))
                     (ChatRoutes.users d)) as Hmark.
  { intros d c Hc Hin.
    rewrite (markAsRead_outcome toObjectId chatId currentUserId currentUserId d
               Hcaller), Hid, Hc.
    rewrite bool_decide_eq_true_2 by done. simpl. f_equal.
    apply map_eq. intros k. destruct (decide (k = id)) as [->|Hk].
    - by rewrite lookup_alter_eq, lookup_insert_eq, Hc.
    - by rewrite lookup_alter_ne, lookup_insert_ne. }
  assert (db' = ChatRoutes.mkDB
                  (<[id := ChatRoutes.setUnreadZero currentUserId chat]>
                     (ChatRoutes.chats db))
                  (ChatRoutes.users db)) as Hdb' by (by apply Hmark).
  assert (ChatRoutes.chats db' !! id
          = Some (ChatRoutes.setUnreadZero currentUserId chat)) as Hchat'.
  { rewrite Hdb'. simpl. apply lookup_insert_eq. }
  split; [|split].
  - rewrite (Hmark db' _ Hchat') by done. rewrite Hdb'. simpl.
    by rewrite setUnreadZero_idemp, insert_insert_eq.
  - intros Huser.
    assert (currentUserId
            ∈ ChatRoutes.pv_id <$> ChatRoutes.populate db'
                (ChatRoutes.participants (ChatRoutes.setUnreadZero currentUserId chat)))
      as Hpop.
    { apply populate_ids. split; [done|]. by rewrite Hdb'. }
    rewrite (getChat_outcome toObjectId chatId currentUserId currentUserId db'
               Hcaller), Hid, Hchat'.
    rewrite bool_decide_eq_true_2 by done. simpl.
    eexists. split; [done|]. simpl. rewrite detail_counters.
    rewrite decide_True by done. unfold ChatRoutes.getUnreadCount.
    by rewrite lookup_insert_eq.
  - intros limitRaw offsetRaw r cv Hr Hcv Hcvid.
    destruct (getChats_cases toObjectId Number currentUserId currentUserId
                limitRaw offsetRaw db' Hcaller)
      as [[e Ho]|(limit & offset & _ & _ & Ho)]; rewrite Ho in Hr; [done|].
    simpl in Hr. injection Hr as <-. simpl in Hcv.
    apply list_elem_of_fmap in Hcv as ([k c] & -> & Hkc).
    apply find_result_elem in Hkc as [Hdoc _]. simpl in Hcvid, Hdoc.
    rewrite Hcvid, Hchat' in Hdoc. injection Hdoc as <-.
    unfold ChatRoutes.listView. simpl. apply lookup_insert_eq.
Qed.

Lemma markAsRead_then_read_witness :
  let db' := ChatRoutes.after
               (ChatRoutes.markAsRead ChatRoutes.hex24 Sample.idC Sample.idA Sample.db) in
  ChatRoutes.after (ChatRoutes.markAsRead ChatRoutes.hex24 Sample.idC Sample.idA db')
  = db'.
Proof.
  intros db'.
  refine (proj1 (markAsRead_then_read ChatRoutes.hex24 ChatRoutes.decimalNumber
    Sample.db Sample.idC Sample.idA Sample.idC
    (ChatRoutes.mkChatDoc [Sample.idA; Sample.idB] "private" None
       (Some {[ Sample.idA := 2%Z ]}) 1000 2000) _ _ _ _)).
  - reflexivity.
  - reflexivity.
  - reflexivity.
  - left.
Defined.

(** ** The history of a chat, page by page *)

Section HistoryPages.
Import MainChat MainChatEffects.
Implicit Types (page : list Message.t) (pages : list (list Message.t)).

Lemma opened_state (user : User) chat page :
  opened (Some user) chat page
  = mkState (Some chat) (reverse page) false
      (bool_decide (length page = pageSize)) (length page) true [].
Proof. done. Qed.

Lemma loadMoreRound_state (user : User) chat page msgs off auto :
  chat ≠ "" → 0 < off →
  loadMoreRound (Some user) page (mkState (Some chat) msgs false true off auto [])
  = mkState (Some chat) (reverse page ++ msgs) false
      (bool_decide (length page = pageSize)) (off + length page) auto [].
Proof.
  intros Hchat Hoff. unfold loadMoreRound. cbn [step].
  unfold handleLoadMoreMessages. cbn [selectedChatId hasMoreMessages messagesLoading truthy].
  rewrite (bool_decide_eq_false_2 (chat = "")) by done. cbn.
  unfold loadMessages_settle, applyPage, stopLoading. cbn.
  by rewrite (bool_decide_eq_false_2 (off = 0)) by lia.
Qed.

(** Once a page was short no further round does anything. *)
Lemma loadMoreRound_exhausted (user : User) sel msgs off auto page :
  loadMoreRound (Some user) page (mkState sel msgs false false off auto [])
  = mkState sel msgs false false off auto [].
Proof.
  unfold loadMoreRound. cbn [step].
  rewrite handleLoadMoreMessages_blocked by (by right). done.
Qed.

Lemma rounds_state (user : User) chat pages page msgs off auto :
  chat ≠ "" → 0 < off →
  Forall (λ p, length p = pageSize) pages →
  foldl (λ s p, loadMoreRound (Some user) p s)
    (mkState (Some chat) msgs false true off auto []) (pages ++ [page])
  = mkState (Some chat) (reverse (concat (pages ++ [page])) ++ msgs) false
      (bool_decide (length page = pageSize))
      (off + pageSize * length pages + length page) auto [].
Proof.
  intros Hchat Hoff Hfull. revert msgs off Hoff.
  induction Hfull as [|p pages Hp _ IH]; intros msgs off Hoff.
  - cbn [app foldl concat]. rewrite loadMoreRound_state by done.
    rewrite app_nil_r. f_equal. simpl. lia.
  - cbn [app foldl]. rewrite loadMoreRound_state by done.
    rewrite (bool_decide_eq_true_2 _ Hp), IH by lia.
    cbn [concat]. rewrite reverse_app, <- app_assoc. f_equal.
    rewrite Hp. cbn [length]. lia.
Qed.

(** The state after a chat is opened and scrolled back through full pages
    and a last page of any length. *)
Lemma fetchPages_state (user : User) chat pages page :
  chat ≠ "" →
  Forall (λ p, length p = pageSize) pages →
  fetchPages (Some user) chat (pages ++ [page])
  = mkState (Some chat) (reverse (concat (pages ++ [page]))) false
      (bool_decide (length page = pageSize))
      (pageSize * length pages + length page) true [].
Proof.
  intros Hchat Hfull. destruct Hfull as [|p pages Hp Hfull].
  - cbn [app fetchPages foldl concat]. rewrite opened_state, app_nil_r.
    f_equal.
  - cbn [app fetchPages]. rewrite opened_state, (bool_decide_eq_true_2 _ Hp).
    rewrite rounds_state by (done || rewrite Hp; unfold pageSize; lia).
    cbn [concat]. rewrite reverse_app. f_equal.
    rewrite Hp. cbn [length]. lia.
Qed.

Lemma run_listUpdates user upds s :
  run user (listUpdates upds) s
  = mkState (selectedChatId s) (foldl (λ l upd, upd l) (messages s) upds)
      (messagesLoading s) (hasMoreMessages s) (messagesOffset s)
      (shouldAutoScroll s) (inflight s).
Proof.
  unfold run, listUpdates. revert s.
  induction upds as [|upd upds IH]; intros s; [by destruct s|].
  rewrite fmap_cons. cbn [foldl]. by rewrite IH.
Qed.

End HistoryPages.

(** X20. A chat that is opened and scrolled back, each request answered
    before the next is made, holds what the answers held: when every page
    but the last is full (50 messages), the list is the concatenation of
    the pages, each given newest first, turned round as a whole; the
    offset is the number of messages fetched; more is available exactly
    when the last page was full; nothing is loading or pending. After a
    last page that was not full, further rounds of scrolling up ask for
    nothing and change nothing. *)
Theorem history_accumulates (user : User) (chat : string)
    (pages : list (list Message.t)) (page : list Message.t) :
  chat ≠ "" →
  Forall (λ p, length p = MainChat.pageSize) pages →
  let s := MainChatEffects.fetchPages (Some user) chat (pages ++ [page]) in
  MainChat.selectedChatId s = Some chat
  ∧ MainChat.messages s = reverse (concat (pages ++ [page]))
  ∧ MainChat.messagesOffset s = length (concat (pages ++ [page]))
  ∧ MainChat.hasMoreMessages s = bool_decide (length page = MainChat.pageSize)
  ∧ MainChat.messagesLoading s = false
  ∧ MainChat.inflight s = []
  ∧ (length page ≠ MainChat.pageSize →
       ∀ later, foldl (λ st p, MainChatEffects.loadMoreRound (Some user) p st) s later
                = s).
Proof.
  intros Hchat Hfull s. subst s. rewrite fetchPages_state by done.
  cbn [MainChat.selectedChatId MainChat.messages MainChat.messagesOffset
       MainChat.hasMoreMessages MainChat.messagesLoading MainChat.inflight].
  do 2 (split; [done|]). split.
  { rewrite concat_app, length_app. cbn [concat length]. rewrite app_nil_r.
    f_equal. induction Hfull as [|p ps Hp _ IH]; [done|].
    cbn [concat length]. rewrite length_app, Hp, <- IH. lia. }
  do 3 (split; [done|]).
  intros Hshort later. rewrite bool_decide_eq_false_2 by done.
  induction later as [|p later IH]; [done|].
  cbn [foldl]. by rewrite loadMoreRound_exhausted.
Qed.

Lemma history_accumulates_witness :
  MainChat.messages
    (MainChatEffects.fetchPages (Some Sample.alice) "c1"
       ([Sample.stored "c1" 0 50] ++ [Sample.stored "c1" 50 10]))
  = reverse (concat ([Sample.stored "c1" 0 50] ++ [Sample.stored "c1" 50 10])).
Proof.
  refine (proj1 (proj2 (history_accumulates Sample.alice "c1"
                          [Sample.stored "c1" 0 50] (Sample.stored "c1" 50 10) _ _))).
  - discriminate.
  - constructor; [vm_compute; reflexivity | constructor].
Defined.

(** X21. The offset of a request for more history counts the messages
    fetched, not the messages shown: after full pages have been fetched,
    whatever the socket handlers and optimistic updates then do to the
    list, the next request asks at offset 50 times the number of pages.
    So after one message-created event that appended a message the list
    holds one message more than the offset that is asked for. *)
Theorem load_more_offset_ignores_updates (user : User) (chat : string)
    (pages : list (list Message.t)) (page : list Message.t)
    (upds : list (list Message.t → list Message.t)) :
  chat ≠ "" →
  Forall (λ p, length p = MainChat.pageSize) (pages ++ [page]) →
  let fetched := MainChatEffects.fetchPages (Some user) chat (pages ++ [page]) in
  let s := MainChat.run (Some user) (MainChatEffects.listUpdates upds) fetched in
  MainChat.messages s = foldl (λ l upd, upd l) (MainChat.messages fetched) upds
  ∧ MainChat.inflight (MainChat.step (Some user) MainChat.LoadMore s)
    = [ {| MainChat.fetch_chatId := chat;
           MainChat.fetch_offset := MainChat.pageSize * length (pages ++ [page]) |} ]
  ∧ ∀ message,
      upds = [MessageWindow.onNewMessage chat message] →
      MessageResponse.chatId message = chat →
      Message.some_id (MessageResponse.id message) (MainChat.messages fetched) = false →
      length (MainChat.messages s)
      = S (MainChat.pageSize * length (pages ++ [page])).
Proof.
  intros Hchat Hall fetched s. subst s fetched.
  apply Forall_app in Hall as [Hfull Hpage].
  apply (proj1 (Forall_singleton _ _)) in Hpage.
  rewrite run_listUpdates, fetchPages_state by done.
  rewrite (bool_decide_eq_true_2 _ Hpage).
  cbn [MainChat.selectedChatId MainChat.messages MainChat.messagesOffset
       MainChat.hasMoreMessages MainChat.messagesLoading MainChat.inflight
       MainChat.shouldAutoScroll].
  split; [done|]. split.
  - cbn [MainChat.step]. unfold MainChat.handleLoadMoreMessages.
    cbn [MainChat.selectedChatId MainChat.hasMoreMessages MainChat.messagesLoading
         MainChat.truthy].
    rewrite (bool_decide_eq_false_2 (chat = "")) by done. cbn.
    rewrite length_app, Hpage. cbn [length]. do 2 f_equal. unfold MainChat.pageSize. lia.
  - intros message -> Hmsg Hnew. cbn [foldl].
    unfold MessageWindow.onNewMessage, MessageWindow.subscribed.
    rewrite (bool_decide_eq_false_2 (chat = "")) by done.
    rewrite (bool_decide_eq_true_2 _ Hmsg), Hnew. cbn [negb].
    rewrite length_app, length_reverse. cbn [length].
    rewrite concat_app, !length_app. cbn [concat length]. rewrite app_nil_r, Hpage.
    assert (length (concat pages) = MainChat.pageSize * length pages) as ->.
    { clear -Hfull. induction Hfull as [|p ps Hp _ IH]; [done|].
      cbn [concat length]. rewrite length_app, Hp, IH. lia. }
    unfold MainChat.pageSize. lia.
Qed.

Lemma load_more_offset_ignores_updates_witness :
  MainChat.inflight
    (MainChat.step (Some Sample.alice) MainChat.LoadMore
       (MainChat.run (Some Sample.alice)
          (MainChatEffects.listUpdates
             [MessageWindow.onNewMessage "c1" (Sample.served "m-new" "c1" Sample.bob "hi")])
          (MainChatEffects.fetchPages (Some Sample.alice) "c1"
             ([] ++ [Sample.stored "c1" 0 50]))))
  = [ {| MainChat.fetch_chatId := "c1";
         MainChat.fetch_offset :=
           MainChat.pageSize * length ([] ++ [Sample.stored "c1" 0 50]) |} ].
Proof.
  refine (proj1 (proj2 (load_more_offset_ignores_updates Sample.alice "c1" []
                          (Sample.stored "c1" 0 50)
                          [MessageWindow.onNewMessage "c1"
                             (Sample.served "m-new" "c1" Sample.bob "hi")] _ _))).
  - discriminate.
  - constructor; [vm_compute; reflexivity | constructor].
Defined.
